(** * Verification of the SQL generation / validation pipeline of insight-kopdes

    Shallow embedding of [src/chains/query_chain.py] and [src/db/connection.py].

    Text is a Python [str]; it is modelled as a list of [ascii] characters,
    each read as the Unicode code point U+0000 .. U+00FF (Latin-1).  The
    character classes below ([\s], [\w], [str.lower], [IGNORECASE]) are
    Python's on that range.  The regular expressions of the source are
    written out as scanners, one per pattern, each next to the pattern it
    embeds.  Library calls ([json.loads], the LLM, the database) are either
    modelled ([json.loads]) or taken as oracles of an environment. *)

From Stdlib Require Import Ascii String List Bool Arith Lia ZArith.
Set Warnings "-register-all,-abstract-large-number".
Import ListNotations.
Open Scope list_scope.

(* ================================================================= *)
(** ** Text *)

Definition str := list ascii.

(** String literals of the source, as text. *)
Definition T (s : string) : str := list_ascii_of_string s.
Arguments T s%_string.

Definition dq : ascii := ascii_of_nat 34.
Definition sq : ascii := ascii_of_nat 39.

(** Text with each backquote standing for a double quote. *)
Definition TQ (s : string) : str :=
  map (fun c => if Ascii.eqb c "`"%char then dq else c) (T s).
Arguments TQ s%_string.

Definition code (c : ascii) : nat := nat_of_ascii c.

Definition in_range (lo hi n : nat) : bool := (lo <=? n) && (n <=? hi).

(** Python [str.isspace] (= [\s] of [re]) on U+0000 .. U+00FF. *)
Definition is_space (c : ascii) : bool :=
  let n := code c in
  in_range 9 13 n || in_range 28 32 n || (n =? 133) || (n =? 160).

(** Python [re] [\w] ([str.isalnum] or underscore) on U+0000 .. U+00FF. *)
Definition is_word (c : ascii) : bool :=
  let n := code c in
  in_range 48 57 n || in_range 65 90 n || in_range 97 122 n || (n =? 95)
  || (n =? 170) || in_range 178 179 n || (n =? 181) || in_range 185 186 n
  || in_range 188 190 n || in_range 192 214 n || in_range 216 246 n
  || in_range 248 255 n.

(** Character classes [[a-zA-Z_]] and [[a-zA-Z0-9_]] of the patterns. *)
Definition is_ident_start (c : ascii) : bool :=
  let n := code c in in_range 65 90 n || in_range 97 122 n || (n =? 95).

Definition is_ident_char (c : ascii) : bool :=
  is_ident_start c || in_range 48 57 (code c).

(** Python [str.lower] on U+0000 .. U+00FF. *)
Definition lower (c : ascii) : ascii :=
  let n := code c in
  if in_range 65 90 n || in_range 192 214 n || in_range 216 222 n
  then ascii_of_nat (n + 32) else c.

Definition lower_str (s : str) : str := map lower s.

(** Character comparison under [re.IGNORECASE]. *)
Definition ci_eq (a b : ascii) : bool := Ascii.eqb (lower a) (lower b).

Definition str_eqb (a b : str) : bool :=
  if list_eq_dec ascii_dec a b then true else false.

Definition mem (x : str) (l : list str) : bool := existsb (str_eqb x) l.

Definition is_some {A} (o : option A) : bool :=
  match o with Some _ => true | None => false end.

Fixpoint prefix (p s : str) : bool :=
  match p, s with
  | [], _ => true
  | a :: p', c :: s' => Ascii.eqb a c && prefix p' s'
  | _ :: _, [] => false
  end.

Fixpoint prefix_ci (p s : str) : bool :=
  match p, s with
  | [], _ => true
  | a :: p', c :: s' => ci_eq a c && prefix_ci p' s'
  | _ :: _, [] => false
  end.

Definition starts_with (P : ascii -> bool) (s : str) : bool :=
  match s with c :: _ => P c | [] => false end.

Fixpoint skip_spaces (s : str) : str :=
  match s with
  | c :: r => if is_space c then skip_spaces r else s
  | [] => []
  end.

(** Word-ness of the character before a position, [b] at the very start:
    [\b] holds before a word character iff this is [false]. *)
Fixpoint last_word (b : bool) (p : str) : bool :=
  match p with
  | [] => b
  | c :: r => last_word (is_word c) r
  end.

(* ================================================================= *)
(** ** [validate_sql] *)

(** [_SELECT_ONLY_RE = re.compile(r"^\s*SELECT\s", re.IGNORECASE)], searched
    with [.search]: [^] anchors at 0; giving back spaces of [\s*] never helps
    since [S] is no space. *)
Definition select_only_search (s : str) : bool :=
  let t := skip_spaces s in
  prefix_ci (T "SELECT") t && starts_with is_space (skipn 6 t).

Definition forbidden_keywords : list str :=
  map T ["INSERT"; "UPDATE"; "DELETE"; "DROP"; "ALTER"; "TRUNCATE"; "CREATE"]%string.

(** [\bKW\b] at a position, [prev] the word-ness of the preceding
    character (every keyword starts and ends with a word character). *)
Definition keyword_here (prev : bool) (k s : str) : bool :=
  negb prev && prefix_ci k s && negb (starts_with is_word (skipn (length k) s)).

(** One attempt of [_FORBIDDEN_RE] at a position:
    [;|--|\bINSERT\b|\bUPDATE\b|...|\bCREATE\b] (IGNORECASE). *)
Definition forbidden_here (prev : bool) (s : str) : bool :=
  prefix (T ";") s || prefix (T "--") s
  || existsb (fun k => keyword_here prev k s) forbidden_keywords.

(** [_FORBIDDEN_RE.search(sql)]: attempts at positions 0 .. len. *)
Fixpoint forbidden_search (prev : bool) (s : str) : bool :=
  forbidden_here prev s ||
  match s with
  | [] => false
  | c :: r => forbidden_search (is_word c) r
  end.

Definition validate_sql (sql : str) : bool :=
  if negb (select_only_search sql) then false
  else if forbidden_search false sql then false
  else true.

(** *** The safety rule in the words of the specification *)

(** [any_split f s]: some split [s = p ++ q] has [f p q = true]. *)
Fixpoint any_split (f : str -> str -> bool) (s : str) : bool :=
  f [] s ||
  match s with
  | [] => false
  | c :: r => any_split (fun p q => f (c :: p) q) r
  end.

Definition contains (t s : str) : bool := any_split (fun _ q => prefix t q) s.

(** [k] occurs case-insensitively as a whole word. *)
Definition contains_word_ci (k s : str) : bool :=
  any_split (fun p q => negb (last_word false p) && prefix_ci k q
                        && negb (starts_with is_word (skipn (length k) q))) s.

Definition no_forbidden_text (s : str) : bool :=
  negb (contains (T ";") s) && negb (contains (T "--") s)
  && forallb (fun k => negb (contains_word_ci k s)) forbidden_keywords.

(** Claim C2 as written: begins with SELECT after leading whitespace. *)
Definition spec_safe (s : str) : bool :=
  prefix_ci (T "SELECT") (skip_spaces s) && no_forbidden_text s.

(** Same, with SELECT followed by a whitespace character. *)
Definition spec_safe_select_space (s : str) : bool :=
  prefix_ci (T "SELECT") (skip_spaces s)
  && starts_with is_space (skipn 6 (skip_spaces s))
  && no_forbidden_text s.

(* ================================================================= *)
(** ** Scalar values and [safe_serialize] *)

(** Values a database row can hold (what the driver hands back). *)
Inductive dbval :=
| DNone
| DBool (b : bool)
| DInt (z : Z)
| DFloat (repr : str)                 (* a float, by its [str] text *)
| DStr (s : str)
| DDecimal (m e : Z)                  (* Decimal(m * 10^e) *)
| DDate (y mo d : Z)
| DDateTime (y mo d h mi sec us : Z)  (* naive datetime *)
| DOther (repr : str).                (* any other object, by its [str] text *)

(** Values [safe_serialize] can return: a [str] or a [float]. *)
Inductive outval :=
| OStr (s : str)
| OFloatOfDecimal (m e : Z).          (* float(Decimal(m * 10^e)) *)

Fixpoint N_digits (fuel : nat) (n : N) (acc : str) : str :=
  match fuel with
  | O => acc
  | S f =>
      let acc' := ascii_of_N (48 + N.modulo n 10) :: acc in
      if (n <? 10)%N then acc' else N_digits f (N.div n 10) acc'
  end.

Definition N_to_str (n : N) : str := N_digits (S (N.size_nat n)) n [].

(** Python [str(int)]. *)
Definition Z_to_str (z : Z) : str :=
  if (z <? 0)%Z then T "-" ++ N_to_str (Z.to_N (- z)) else N_to_str (Z.to_N z).

(** ['%0nd' % z] for [z >= 0]. *)
Definition pad0 (n : nat) (z : Z) : str :=
  let s := Z_to_str z in repeat "0"%char (n - length s) ++ s.

Definition date_iso (y mo d : Z) : str :=
  pad0 4 y ++ T "-" ++ pad0 2 mo ++ T "-" ++ pad0 2 d.

(** [date.isoformat()] and [datetime.isoformat()] (naive). *)
Definition datetime_iso (y mo d h mi sec us : Z) : str :=
  date_iso y mo d ++ T "T" ++ pad0 2 h ++ T ":" ++ pad0 2 mi ++ T ":" ++ pad0 2 sec
  ++ (if (us =? 0)%Z then [] else T "." ++ pad0 6 us).

(** Python [str(obj)] on the other values. *)
Definition py_str (v : dbval) : str :=
  match v with
  | DNone => T "None"
  | DBool true => T "True"
  | DBool false => T "False"
  | DInt z => Z_to_str z
  | DFloat r => r
  | DStr s => s
  | DDecimal m e => Z_to_str m ++ T "E" ++ Z_to_str e
  | DDate y mo d => date_iso y mo d
  | DDateTime y mo d h mi sec us => datetime_iso y mo d h mi sec us
  | DOther r => r
  end.

(** [safe_serialize] (query_chain.py, lines 31-37). *)
Definition safe_serialize (v : dbval) : outval :=
  match v with
  | DDateTime y mo d h mi sec us => OStr (datetime_iso y mo d h mi sec us)
  | DDate y mo d => OStr (date_iso y mo d)
  | DDecimal m e => OFloatOfDecimal m e
  | _ => OStr (py_str v)
  end.

(** Rows: a Python dict, as the list of its items in insertion order. *)
Definition row (V : Type) := list (str * V).

Definition serialize_row (r : row dbval) : row outval :=
  map (fun kv => (fst kv, safe_serialize (snd kv))) r.

(* ================================================================= *)
(** ** Schema context *)

(** One entry of the list built by [build_schema_summary]. *)
Record descriptor := {
  d_table : str;
  d_description : option str;          (* absent on the live-DB path *)
  d_columns : list str;                (* "name (type): description" *)
  d_sample_rows : list (row outval)
}.

Fixpoint take_until (x : ascii) (s : str) : str :=
  match s with
  | [] => []
  | c :: r => if Ascii.eqb c x then [] else c :: take_until x r
  end.

(** [col.split(" ")[0].split("(")[0]] *)
Definition col_name (col : str) : str := take_until "(" (take_until " " col).

(* ================================================================= *)
(** ** Regular-expression scanners *)

Notation "'let?' x ':=' a 'in' b" :=
  (match a with Some x => b | None => None end)
  (at level 200, x pattern, a at level 100, b at level 200).

Fixpoint span (P : ascii -> bool) (s : str) : str * str :=
  match s with
  | c :: r => if P c then let (a, b) := span P r in (c :: a, b) else ([], s)
  | [] => ([], [])
  end.

(** [\s+], greedy. *)
Definition m_spaces1 (s : str) : option str :=
  match span is_space s with
  | ([], _) => None
  | (_, rest) => Some rest
  end.

(** [[a-zA-Z_][a-zA-Z0-9_]*], greedy. *)
Definition m_ident (s : str) : option (str * str) :=
  match s with
  | c :: _ => if is_ident_start c then Some (span is_ident_char s) else None
  | [] => None
  end.

(** A literal word under IGNORECASE. *)
Definition m_word_ci (k s : str) : option str :=
  if prefix_ci k s then Some (skipn (length k) s) else None.

(** [re.findall]: a matcher is tried at each position (given the word-ness
    of the previous character); after a match the scan resumes at its end.
    A matcher returns its groups and the text after the match. *)
Fixpoint findall_go {A} (m : bool -> str -> option (A * str))
    (fuel : nat) (prev : bool) (s : str) : list A :=
  match fuel with
  | O => []
  | S f =>
      match m prev s with
      | Some (a, rest) =>
          a :: findall_go m f (last_word prev (firstn (length s - length rest) s)) rest
      | None =>
          match s with
          | [] => []
          | c :: r => findall_go m f (is_word c) r
          end
      end
  end.

Definition findall {A} (m : bool -> str -> option (A * str)) (s : str) : list A :=
  findall_go m (S (length s)) false s.

(** [re.sub(pattern, '', s)] for a pattern without [\b]. *)
Fixpoint sub_empty_go (m : str -> option str) (fuel : nat) (s : str) : str :=
  match fuel with
  | O => s
  | S f =>
      match m s with
      | Some rest => sub_empty_go m f rest
      | None =>
          match s with
          | [] => []
          | c :: r => c :: sub_empty_go m f r
          end
      end
  end.

Definition sub_empty (m : str -> option str) (s : str) : str :=
  sub_empty_go m (S (length s)) s.

(** A quote character [Q], then [[^Q]*] greedy, then [Q]: the body and the rest. *)
Definition m_quoted (qc : ascii) (s : str) : option (str * str) :=
  match s with
  | c :: r =>
      if Ascii.eqb c qc then
        match span (fun x => negb (Ascii.eqb x qc)) r with
        | (body, q :: rest) => Some (body, rest)
        | (_, []) => None
        end
      else None
  | [] => None
  end.

(** [\b[a-zA-Z_][a-zA-Z0-9_]*\b]: the run must start after a non-word
    character and be followed by one (shorter runs end inside a word). *)
Definition m_identifier (prev : bool) (s : str) : option (str * str) :=
  if prev then None else
  let? (id, rest) := m_ident s in
  if starts_with is_word rest then None else Some (id, rest).

(** [\bKW\s+(IDENT)], IGNORECASE, where IDENT is [[a-zA-Z_][a-zA-Z0-9_]*]. *)
Definition m_kw_table (k : str) (prev : bool) (s : str) : option (str * str) :=
  if prev then None else
  let? s1 := m_word_ci k s in
  let? s2 := m_spaces1 s1 in
  m_ident s2.

(** [\bKW\s+(IDENT)\s+(IDENT)], IGNORECASE. *)
Definition m_kw_alias (k : str) (prev : bool) (s : str) : option ((str * str) * str) :=
  let? (t, s1) := m_kw_table k prev s in
  let? s2 := m_spaces1 s1 in
  let? (a, rest) := m_ident s2 in
  Some ((t, a), rest).

(** [\b(?:FROM|JOIN)\s+(t)\s+AS\s+(a)], IGNORECASE. *)
Definition m_kw_as_alias1 (k : str) (prev : bool) (s : str) : option ((str * str) * str) :=
  let? (t, s1) := m_kw_table k prev s in
  let? s2 := m_spaces1 s1 in
  let? s3 := m_word_ci (T "AS") s2 in
  let? s4 := m_spaces1 s3 in
  let? (a, rest) := m_ident s4 in
  Some ((t, a), rest).

Definition m_as_alias (prev : bool) (s : str) : option ((str * str) * str) :=
  match m_kw_as_alias1 (T "FROM") prev s with
  | Some r => Some r
  | None => m_kw_as_alias1 (T "JOIN") prev s
  end.

(* ================================================================= *)
(** ** [extract_table_aliases] (query_chain.py, lines 513-546) *)

Definition add_aliases (valid_tables : list str) (acc : list str)
    (matches : list (str * str)) : list str :=
  fold_left (fun acc ta =>
               if mem (lower_str (fst ta)) valid_tables
               then acc ++ [lower_str (snd ta)] else acc) matches acc.

Definition extract_table_aliases (sql : str) (valid_tables : list str) : list str :=
  let a1 := add_aliases valid_tables [] (findall (m_kw_alias (T "FROM")) sql) in
  let a2 := add_aliases valid_tables a1 (findall (m_kw_alias (T "JOIN")) sql) in
  add_aliases valid_tables a2 (findall m_as_alias sql).

(* ================================================================= *)
(** ** [enforce_schema_strictly] (query_chain.py, lines 417-510) *)

Definition valid_tables (schema : list descriptor) : list str :=
  map (fun d => lower_str (d_table d)) schema.

Definition valid_columns (schema : list descriptor) : list str :=
  flat_map (fun d => map (fun c => lower_str (col_name c)) (d_columns d)) schema.

Definition sql_keywords : list str :=
  map T ["select"; "from"; "where"; "join"; "on"; "as"; "and"; "or"; "not"; "in";
         "is"; "null"; "count"; "sum"; "avg"; "max"; "min"; "distinct"; "group";
         "by"; "order"; "having"; "left"; "right"; "inner"; "outer"; "union";
         "all"; "exists"; "like"; "between"; "case"; "when"; "then"; "else";
         "end"; "limit"; "offset"; "desc"; "asc"; "true"; "false"; "cast";
         "extract"; "year"; "month"; "day"; "date"; "timestamp"; "varchar";
         "text"; "integer"; "bigint"; "boolean"; "numeric"; "decimal"; "with"]%string.

Definition sql_functions : list str :=
  map T ["now"; "current_date"; "current_timestamp"; "coalesce"; "concat";
         "upper"; "lower"]%string.

(** [re.findall] of line 452: the body of each double-quoted span, spans
    taken left to right without overlap. *)
Definition quoted_identifiers (sql : str) : list str :=
  findall (fun _ s => m_quoted dq s) sql.

(** [re.sub] of line 456: every single-quoted span removed. *)
Definition strip_literals (sql : str) : str :=
  sub_empty (fun s => option_map snd (m_quoted sq s)) sql.

(** [re.sub] of line 460: every double-quoted span removed. *)
Definition strip_quoted (sql : str) : str :=
  sub_empty (fun s => option_map snd (m_quoted dq s)) sql.

(** [re.findall(r'\b[a-zA-Z_][a-zA-Z0-9_]*\b', sql)] *)
Definition potential_identifiers (s : str) : list str := findall m_identifier s.

(** A column name of the context, exact case. *)
Definition exact_column (schema : list descriptor) (id : str) : bool :=
  existsb (fun d => existsb (fun c => str_eqb (col_name c) id) (d_columns d)) schema.

Definition quoted_report (id : str) : str := T "quoted_column:" ++ [dq] ++ id ++ [dq].

(** Lines 464-477. *)
Fixpoint check_quoted (schema : list descriptor) (ids : list str) : option str :=
  match ids with
  | [] => None
  | id :: r =>
      if exact_column schema id then check_quoted schema r
      else Some (quoted_report id)
  end.

(** Lines 480-500. *)
Fixpoint check_unquoted (aliases vt vc : list str) (ids : list str) : option str :=
  match ids with
  | [] => None
  | id :: r =>
      let l := lower_str id in
      if mem l sql_keywords then check_unquoted aliases vt vc r
      else if mem l sql_functions then check_unquoted aliases vt vc r
      else if mem l aliases then check_unquoted aliases vt vc r
      else if mem l vt || mem l vc then check_unquoted aliases vt vc r
      else Some id
  end.

(** Lines 503-508. *)
Fixpoint check_tables (vt : list str) (ts : list str) : option str :=
  match ts with
  | [] => None
  | t :: r => if mem (lower_str t) vt then check_tables vt r else Some (T "table:" ++ t)
  end.

Definition enforce_schema_strictly (sql : str) (schema : list descriptor)
    : bool * option str :=
  let vt := valid_tables schema in
  let vc := valid_columns schema in
  let aliases := extract_table_aliases sql vt in
  let quoted := quoted_identifiers sql in
  let potential := potential_identifiers (strip_quoted (strip_literals sql)) in
  match check_quoted schema quoted with
  | Some e => (false, Some e)
  | None =>
      match check_unquoted aliases vt vc potential with
      | Some e => (false, Some e)
      | None =>
          let tables := findall (m_kw_table (T "FROM")) sql
                        ++ findall (m_kw_table (T "JOIN")) sql in
          match check_tables vt tables with
          | Some e => (false, Some e)
          | None => (true, None)
          end
      end
  end.

(** *** Claim C1 as written *)

(** Every quoted identifier naming no column exactly is the one reported. *)
Definition claim_C1_as_written : Prop :=
  forall (schema : list descriptor) (sql q : str),
    In q (quoted_identifiers sql) ->
    (forall d c, In d schema -> In c (d_columns d) -> col_name c <> q) ->
    enforce_schema_strictly sql schema = (false, Some (quoted_report q)).

(** The context of the examples: table cooperatives, columns name, villageId. *)
Definition coop_schema : list descriptor :=
  [{| d_table := T "cooperatives"; d_description := Some (T "Koperasi");
      d_columns := map T ["name (varchar): nama koperasi";
                          "villageId (bigint): desa"]%string;
      d_sample_rows := [] |}].

(* ================================================================= *)
(** ** Exceptions *)

(** Python exceptions, with their message. *)
Inductive exn :=
| ValueError (msg : str)
| TypeError (msg : str)
| AttributeError (msg : str)
| KeyError (key : str)
| ServiceError (msg : str)     (* raised by the completion / vector service *)
| DbError (msg : str).         (* raised by the database driver *)

Inductive result (A : Type) :=
| Ok (a : A)
| Raise (e : exn).
Arguments Ok {A} a.
Arguments Raise {A} e.

(** [str(e)] *)
Definition exn_str (e : exn) : str :=
  match e with
  | ValueError m | TypeError m | AttributeError m | ServiceError m | DbError m => m
  | KeyError k => [sq] ++ k ++ [sq]
  end.

(* ================================================================= *)
(** ** [json.loads] *)

Inductive json :=
| JNull
| JBool (b : bool)
| JNum (lexeme : str)                (* an int or a float, by its text *)
| JStr (s : str)
| JArr (l : list json)
| JObj (kvs : list (str * json)).

Definition is_json_ws (c : ascii) : bool :=
  let n := code c in (n =? 32) || (n =? 9) || (n =? 10) || (n =? 13).

Fixpoint skip_ws (s : str) : str :=
  match s with
  | c :: r => if is_json_ws c then skip_ws r else s
  | [] => []
  end.

Definition is_digit (c : ascii) : bool := in_range 48 57 (code c).

Definition hex_val (c : ascii) : option nat :=
  let n := code c in
  if in_range 48 57 n then Some (n - 48)
  else if in_range 97 102 n then Some (n - 87)
  else if in_range 65 70 n then Some (n - 55)
  else None.

(** Body of a JSON string after its opening quote (strict mode: no raw
    control characters).  A [\uXXXX] escape above U+00FF lies outside the
    modelled alphabet and is not decoded. *)
Fixpoint p_string_body (s : str) : option (str * str) :=
  match s with
  | [] => None
  | c :: r =>
      if Ascii.eqb c dq then Some ([], r)
      else if code c <? 32 then None
      else if Ascii.eqb c "\"%char then
        match r with
        | e :: r' =>
            let esc x := option_map (fun br => (x :: fst br, snd br)) (p_string_body r') in
            match code e with
            | 34 | 92 | 47 => esc e
            | 98 => esc (ascii_of_nat 8)
            | 102 => esc (ascii_of_nat 12)
            | 110 => esc (ascii_of_nat 10)
            | 114 => esc (ascii_of_nat 13)
            | 116 => esc (ascii_of_nat 9)
            | 117 =>
                match r' with
                | h1 :: h2 :: h3 :: h4 :: r'' =>
                    match hex_val h1, hex_val h2, hex_val h3, hex_val h4 with
                    | Some a, Some b, Some c', Some d =>
                        let n := a * 4096 + b * 256 + c' * 16 + d in
                        if n <? 256 then
                          option_map (fun br => (ascii_of_nat n :: fst br, snd br))
                            (p_string_body r'')
                        else None
                    | _, _, _, _ => None
                    end
                | _ => None
                end
            | _ => None
            end
        | [] => None
        end
      else option_map (fun br => (c :: fst br, snd br)) (p_string_body r)
  end.

Definition p_string (s : str) : option (str * str) :=
  match s with
  | c :: r => if Ascii.eqb c dq then p_string_body r else None
  | [] => None
  end.

(** [NUMBER_RE] of the json module: an optional minus, then [0] or a
    nonzero digit followed by digits, then optionally a dot and digits, then
    optionally [e] or [E], an optional sign and digits. *)
Definition digits1 (s : str) : option nat :=
  match span is_digit s with
  | ([], _) => None
  | (d, _) => Some (length d)
  end.

Definition p_number (s : str) : option (json * str) :=
  let neg := match s with c :: _ => Ascii.eqb c "-"%char | [] => false end in
  let s0 := if neg then tl s else s in
  let? int_len :=
    match s0 with
    | c :: _ => if Ascii.eqb c "0"%char then Some 1
                else if is_digit c then digits1 s0 else None
    | [] => None
    end in
  let s1 := skipn int_len s0 in
  let frac_len :=
    match s1 with
    | c :: r => if Ascii.eqb c "."%char
                then match digits1 r with Some n => S n | None => 0 end else 0
    | [] => 0
    end in
  let s2 := skipn frac_len s1 in
  let exp_len :=
    match s2 with
    | c :: r =>
        if Ascii.eqb c "e"%char || Ascii.eqb c "E"%char then
          let sign := match r with
                      | x :: _ => Ascii.eqb x "+"%char || Ascii.eqb x "-"%char
                      | [] => false end in
          match digits1 (if sign then tl r else r) with
          | Some n => 1 + (if sign then 1 else 0) + n
          | None => 0
          end
        else 0
    | [] => 0
    end in
  let n := (if neg then 1 else 0) + int_len + frac_len + exp_len in
  Some (JNum (firstn n s), skipn n s).

Fixpoint p_value (fuel : nat) (s : str) {struct fuel} : option (json * str) :=
  match fuel with
  | O => None
  | S f =>
      match s with
      | [] => None
      | c :: r =>
          if Ascii.eqb c dq then option_map (fun br => (JStr (fst br), snd br)) (p_string_body r)
          else if Ascii.eqb c "{"%char then
            match skip_ws r with
            | x :: r' => if Ascii.eqb x "}"%char then Some (JObj [], r')
                         else p_members f [] (x :: r')
            | [] => None
            end
          else if Ascii.eqb c "["%char then
            match skip_ws r with
            | x :: r' => if Ascii.eqb x "]"%char then Some (JArr [], r')
                         else p_elements f [] (x :: r')
            | [] => None
            end
          else if prefix (T "null") s then Some (JNull, skipn 4 s)
          else if prefix (T "true") s then Some (JBool true, skipn 4 s)
          else if prefix (T "false") s then Some (JBool false, skipn 5 s)
          else if is_digit c || (Ascii.eqb c "-"%char && starts_with is_digit r)
          then p_number s
          else if prefix (T "NaN") s then Some (JNum (T "NaN"), skipn 3 s)
          else if prefix (T "Infinity") s then Some (JNum (T "Infinity"), skipn 8 s)
          else if prefix (T "-Infinity") s then Some (JNum (T "-Infinity"), skipn 9 s)
          else None
      end
  end
with p_members (fuel : nat) (acc : list (str * json)) (s : str) {struct fuel}
    : option (json * str) :=
  match fuel with
  | O => None
  | S f =>
      let? (k, r1) := p_string s in
      match skip_ws r1 with
      | c :: r2 =>
          if Ascii.eqb c ":"%char then
            let? (v, r3) := p_value f (skip_ws r2) in
            match skip_ws r3 with
            | x :: r4 =>
                if Ascii.eqb x ","%char then p_members f (acc ++ [(k, v)]) (skip_ws r4)
                else if Ascii.eqb x "}"%char then Some (JObj (acc ++ [(k, v)]), r4)
                else None
            | [] => None
            end
          else None
      | [] => None
      end
  end
with p_elements (fuel : nat) (acc : list json) (s : str) {struct fuel}
    : option (json * str) :=
  match fuel with
  | O => None
  | S f =>
      let? (v, r1) := p_value f s in
      match skip_ws r1 with
      | x :: r2 =>
          if Ascii.eqb x ","%char then p_elements f (acc ++ [v]) (skip_ws r2)
          else if Ascii.eqb x "]"%char then Some (JArr (acc ++ [v]), r2)
          else None
      | [] => None
      end
  end.

(** [json.loads(s)]; [None] is [JSONDecodeError]. *)
Definition json_loads (s : str) : option json :=
  let s1 := skip_ws s in
  match p_value (S (length s1)) s1 with
  | Some (v, rest) => match skip_ws rest with [] => Some v | _ => None end
  | None => None
  end.

(* ================================================================= *)
(** ** Completion extraction ([ask_llm_for_sql], lines 380-397) *)

(** Python's type name of a decoded JSON value. *)
Definition json_type_name (j : json) : str :=
  match j with
  | JNull => T "NoneType"
  | JBool _ => T "bool"
  | JNum l => if contains (T ".") l || contains (T "e") l || contains (T "E") l
                 || contains (T "N") l || contains (T "I") l
              then T "float" else T "int"
  | JStr _ => T "str"
  | JArr _ => T "list"
  | JObj _ => T "dict"
  end.

Fixpoint json_eqb (a b : json) : bool :=
  match a, b with
  | JNull, JNull => true
  | JBool x, JBool y => Bool.eqb x y
  | JNum x, JNum y => str_eqb x y
  | JStr x, JStr y => str_eqb x y
  | JArr xs, JArr ys =>
      (fix go xs ys := match xs, ys with
                       | [], [] => true
                       | x :: xs, y :: ys => json_eqb x y && go xs ys
                       | _, _ => false end) xs ys
  | JObj _, JObj _ => false   (* never compared with a string below *)
  | _, _ => false
  end.

(** The value of a key in a decoded object: a later duplicate wins. *)
Fixpoint lookup_last (k : str) (kvs : list (str * json)) : option json :=
  match kvs with
  | [] => None
  | (k', v) :: r =>
      match lookup_last k r with
      | Some w => Some w
      | None => if str_eqb k k' then Some v else None
      end
  end.

Definition key_sql : str := T "sql".

(** ["sql" in obj] *)
Definition py_contains_sql (j : json) : result bool :=
  match j with
  | JObj kvs => Ok (is_some (lookup_last key_sql kvs))
  | JArr l => Ok (existsb (json_eqb (JStr key_sql)) l)
  | JStr s => Ok (contains key_sql s)
  | _ => Raise (TypeError (T "argument of type " ++ [sq] ++ json_type_name j ++ [sq]
                           ++ T " is not iterable"))
  end.

(** [obj["sql"]], only reached when the membership test succeeded. *)
Definition py_getitem_sql (j : json) : result json :=
  match j with
  | JObj kvs => match lookup_last key_sql kvs with
                | Some v => Ok v
                | None => Raise (KeyError key_sql)
                end
  | JStr _ => Raise (TypeError (T "string indices must be integers, not " ++ [sq] ++ T "str" ++ [sq]))
  | _ => Raise (TypeError (json_type_name j ++ T " indices must be integers or slices, not str"))
  end.

(** [if "sql" in obj: return {"sql": obj["sql"]}], else fall through. *)
Definition sql_of_obj (j : json) : option (result json) :=
  match py_contains_sql j with
  | Raise e => Some (Raise e)
  | Ok true => Some (py_getitem_sql j)
  | Ok false => None
  end.

(** [re.search(r"\{.*\}", text, re.DOTALL)]: from the first opening brace
    to the last closing brace after it. *)
Fixpoint upto_last (x : ascii) (s : str) : option str :=
  match s with
  | [] => None
  | c :: r =>
      match upto_last x r with
      | Some p => Some (c :: p)
      | None => if Ascii.eqb c x then Some [c] else None
      end
  end.

Fixpoint brace_span (s : str) : option str :=
  match s with
  | [] => None
  | c :: r =>
      if Ascii.eqb c "{"%char then option_map (fun p => c :: p) (upto_last "}"%char r)
      else brace_span r
  end.

(** The parsing part of [ask_llm_for_sql] (and of
    [ask_llm_for_sql_with_feedback], whose message differs), on the stripped
    completion text. *)
Definition extract_sql (msg : str) (text : str) : result json :=
  let fail := Raise (ValueError (msg ++ text)) in
  match json_loads text with
  | Some obj =>
      match sql_of_obj obj with
      | Some r => r
      | None => fail
      end
  | None =>
      match brace_span text with
      | Some sub =>
          match json_loads sub with
          | Some obj =>
              match sql_of_obj obj with
              | Some r => r
              | None => fail
              end
          | None => fail
          end
      | None => fail
      end
  end.

Definition invalid_json_msg : str := T "Invalid JSON response from LLM:" ++ [ascii_of_nat 10].
Definition invalid_json_retry_msg : str :=
  T "Invalid JSON response from LLM on retry:" ++ [ascii_of_nat 10].

(** [str.strip()] *)
Definition py_strip (s : str) : str := rev (skip_spaces (rev (skip_spaces s))).

(** [ask_llm_for_sql]: [completion] is what [llm.invoke] gives back. *)
Definition ask_llm_for_sql (completion : result str) : result json :=
  match completion with
  | Raise e => Raise e
  | Ok content => extract_sql invalid_json_msg (py_strip content)
  end.

(** Claim C9 as written: an extracted value is always a string, and every
    failure is the invalid-response error. *)
Definition claim_C9_as_written : Prop :=
  forall text : str,
    (forall v, extract_sql invalid_json_msg text = Ok v -> exists s, v = JStr s)
    /\ (forall e, extract_sql invalid_json_msg text = Raise e ->
                  e = ValueError (invalid_json_msg ++ text)).

(* ================================================================= *)
(** ** Python helpers *)

(** [l[:n]] *)
Definition py_slice_upto {A} (l : list A) (n : Z) : list A :=
  if (0 <=? n)%Z then firstn (Z.to_nat n) l
  else firstn (length l - Z.to_nat (- n)) l.

(** [dict(pairs)]: a later key updates the value in place. *)
Fixpoint dict_insert {V} (k : str) (v : V) (d : row V) : row V :=
  match d with
  | [] => [(k, v)]
  | (k', v') :: r => if str_eqb k k' then (k', v) :: r else (k', v') :: dict_insert k v r
  end.

Definition dict_of_pairs {V} (pairs : list (str * V)) : row V :=
  fold_left (fun d kv => dict_insert (fst kv) (snd kv) d) pairs [].

(** [d.get(k)] *)
Fixpoint dict_get {V} (k : str) (d : row V) : option V :=
  match d with
  | [] => None
  | (k', v) :: r => if str_eqb k k' then Some v else dict_get k r
  end.

(** [sql.endswith(";")] then [sql[:-1]] *)
Definition drop_semicolon (s : str) : str :=
  match rev s with
  | c :: r => if Ascii.eqb c ";"%char then rev r else s
  | [] => s
  end.

(** An f-string of a [str | None] *)
Definition opt_str (o : option str) : str :=
  match o with Some s => s | None => T "None" end.

(* ================================================================= *)
(** ** The environment: kdmp-tables.json, the database and the services *)

(** One column entry of kdmp-tables.json; a missing key is [None]. *)
Record column_meta := {
  cm_name : option str;
  cm_type : option str;
  cm_description : option str
}.

Record table_meta := {
  tm_description : option str;
  tm_columns : list column_meta
}.

(** The file kdmp-tables.json: absent, not loadable as JSON, or the
    [tables] object it holds (keys in file order). *)
Inductive kdmp_file :=
| NoFile
| Unreadable
| Tables (tables : list (str * table_meta)).

(** What the code prints, for the warnings the claims speak of. *)
Inductive log :=
| WarnMissing (t : str)          (* Table t not found in kdmp-tables.json *)
| WarnSamples (t : str)          (* Failed to fetch samples for t *)
| LoadFailed                     (* Failed to load kdmp-tables.json *)
| UsingDb                        (* using live DB schema instead *)
| DescribeFailed (t : str).      (* Failed to describe t *)

(** The outside world the module talks to.  [llm i fb] is the completion
    of the [i]-th generation call ([fb] is the error feedback of a retry,
    [None] for the first prompt); [db_query] gives the result keys and the
    fetched tuples of a statement. *)
Record env := {
  vector_tables : str -> list str;
  llm : nat -> option str -> result str;
  kdmp : kdmp_file;
  db_tables : result (list str);
  db_connect : result unit;
  db_columns : str -> result (list (str * str));
  db_samples : str -> Z -> result (list (row dbval));
  db_query : str -> result (list str * list (list dbval));
  summarize : str -> list (row outval) -> result str;
  MAX_ROWS : Z;
  SAMPLE_ROWS : Z
}.

(* ================================================================= *)
(** ** [build_schema_summary] (lines 140-196) and [_build_schema_from_db]
       (lines 199-233) *)

Section Schema.
Variable E : env.

(** [f"{c['name']} ({c['type']}): {c.get('description', '')}"] *)
Definition col_desc (c : column_meta) : result str :=
  match cm_name c, cm_type c with
  | Some n, Some t =>
      Ok (n ++ T " (" ++ t ++ T "): " ++ match cm_description c with Some d => d | None => [] end)
  | None, _ => Raise (KeyError (T "name"))
  | _, None => Raise (KeyError (T "type"))
  end.

Fixpoint map_result {A B} (f : A -> result B) (l : list A) : result (list B) :=
  match l with
  | [] => Ok []
  | x :: r => match f x with
              | Raise e => Raise e
              | Ok y => match map_result f r with
                        | Raise e => Raise e
                        | Ok ys => Ok (y :: ys)
                        end
              end
  end.

(** [fetch_sample_rows] then [samples[:SAMPLE_ROWS]], serialized. *)
Definition samples_of (t : str) : result (list (row outval)) :=
  match db_samples E t (SAMPLE_ROWS E) with
  | Raise e => Raise e
  | Ok rs => Ok (map serialize_row (py_slice_upto rs (SAMPLE_ROWS E)))
  end.

Definition table_lookup (tables : list (str * table_meta)) (t : str) : option table_meta :=
  option_map snd (find (fun kv => str_eqb t (fst kv)) tables).

(** The loop over [tables_to_process] on the kdmp-tables.json path; an
    exception leaves the loop (and the [try]). *)
Fixpoint kdmp_loop (tables : list (str * table_meta)) (todo : list str)
  : result (list descriptor) * list log :=
  match todo with
  | [] => (Ok [], [])
  | t :: rest =>
      match table_lookup tables t with
      | None =>
          let '(r, lg) := kdmp_loop tables rest in (r, WarnMissing t :: lg)
      | Some meta =>
          match map_result col_desc (tm_columns meta) with
          | Raise e => (Raise e, [])
          | Ok cols =>
              let '(smp, lg0) :=
                match samples_of t with
                | Ok smp => (smp, [])
                | Raise _ => ([], [WarnSamples t])
                end in
              let d := {| d_table := t;
                          d_description := Some (match tm_description meta with
                                                 | Some x => x | None => [] end);
                          d_columns := cols; d_sample_rows := smp |} in
              let '(r, lg) := kdmp_loop tables rest in
              (match r with Ok ds => Ok (d :: ds) | Raise e => Raise e end, lg0 ++ lg)
          end
      end
  end.

(** [relevant_tables if relevant_tables else default]: [None] and the
    empty list are both falsy. *)
Definition or_default (relevant : option (list str)) (default : list str) : list str :=
  match relevant with
  | Some ((_ :: _) as l) => l
  | _ => default
  end.

(** The loop of [_build_schema_from_db]: a table whose description raises
    is skipped. *)
Fixpoint db_loop (todo : list str) : list descriptor * list log :=
  match todo with
  | [] => ([], [])
  | t :: rest =>
      let '(ds, lg) := db_loop rest in
      match db_columns E t with
      | Raise _ => (ds, DescribeFailed t :: lg)
      | Ok cols =>
          match samples_of t with
          | Raise _ => (ds, DescribeFailed t :: lg)
          | Ok smp =>
              ({| d_table := t; d_description := None;
                  d_columns := map (fun c => fst c ++ T " (" ++ snd c ++ T ")") cols;
                  d_sample_rows := smp |} :: ds, lg)
          end
      end
  end.

Definition build_schema_from_db (relevant : option (list str))
  : result (list descriptor) * list log :=
  match db_tables E with
  | Raise e => (Raise e, [])
  | Ok all_tables =>
      let todo := filter (fun t => mem t all_tables) (or_default relevant all_tables) in
      match db_connect E with
      | Raise e => (Raise e, [])
      | Ok _ => let '(ds, lg) := db_loop todo in (Ok ds, lg)
      end
  end.

Definition build_schema_summary (relevant : option (list str))
  : result (list descriptor) * list log :=
  match kdmp E with
  | Tables tables =>
      match kdmp_loop tables (or_default relevant (map fst tables)) with
      | (Ok ds, lg) => (Ok ds, lg)
      | (Raise _, lg) =>
          let '(r, lg') := build_schema_from_db relevant in (r, lg ++ [LoadFailed; UsingDb] ++ lg')
      end
  | Unreadable =>
      let '(r, lg') := build_schema_from_db relevant in (r, [LoadFailed; UsingDb] ++ lg')
  | NoFile =>
      let '(r, lg') := build_schema_from_db relevant in (r, UsingDb :: lg')
  end.

End Schema.

(* ================================================================= *)
(** ** [execute_read_query] (db/connection.py, lines 12-21) *)

(** The columns are [result.keys()]; each fetched tuple, cut at [max_rows],
    becomes [dict(zip(columns, r))]. *)
Definition execute_read_query (db_query : str -> result (list str * list (list dbval)))
  (sql : str) (max_rows : Z) : result (list str * list (row dbval)) :=
  match db_query sql with
  | Raise e => Raise e
  | Ok (columns, fetched) =>
      Ok (columns, map (fun r => dict_of_pairs (combine columns r)) (py_slice_upto fetched max_rows))
  end.

(* ================================================================= *)
(** ** [ask_llm_for_sql] with its lookups, and the retry loop
       ([ask_llm_for_sql_with_retry], lines 549-586) *)

Section Generation.
Variable E : env.
Variable question : str.

(** [ask_llm_for_sql(question)] (lines 311-397): the table search and the
    schema build run before the completion is requested. *)
Definition ask_llm_for_sql_full : result json :=
  let relevant := vector_tables E question in
  match fst (build_schema_summary E (Some relevant)) with
  | Raise e => Raise e
  | Ok _ => ask_llm_for_sql (llm E 0 None)
  end.

(** [ask_llm_for_sql_with_feedback] (lines 589-653) for the [i]-th call. *)
Definition ask_llm_for_sql_with_feedback (i : nat) (fb : option str) : result json :=
  match llm E i fb with
  | Raise e => Raise e
  | Ok content => extract_sql invalid_json_retry_msg (py_strip content)
  end.

(** The generation call of attempt [i]. *)
Definition generate (i : nat) (last_error : option str) : result json :=
  match i with
  | O => ask_llm_for_sql_full
  | _ => ask_llm_for_sql_with_feedback i last_error
  end.

End Generation.

(** [value.strip()] on the value found under [sql]. *)
Definition json_strip (v : json) : result str :=
  match v with
  | JStr s => Ok (py_strip s)
  | _ => Raise (AttributeError ([sq] ++ json_type_name v ++ [sq]
                                ++ T " object has no attribute " ++ [sq] ++ T "strip" ++ [sq]))
  end.

Definition err_unsafe : str :=
  T "SQL harus dimulai dengan SELECT dan tidak boleh mengandung operasi modifikasi data".

Definition err_unknown_name (invalid_name : option str) : str :=
  T "Nama tabel/kolom " ++ [sq] ++ opt_str invalid_name ++ [sq]
  ++ T " tidak ditemukan dalam schema. Gunakan hanya nama yang ada di kdmp-tables.json".

Definition err_generate (e : exn) : str := T "Error dalam generate SQL: " ++ exn_str e.

Definition fallback_sql : str :=
  T "SELECT " ++ [sq] ++ T "Gagal generate SQL yang valid" ++ [sq] ++ T "::text as error".

(** The body of one iteration: [inl sql] returns, [inr last_error]
    continues. *)
Definition attempt_step (gen : nat -> option str -> result json)
  (schema : list descriptor) (attempt : nat) (last_error : option str) : str + str :=
  match gen attempt last_error with
  | Raise e => inr (err_generate e)
  | Ok v =>
      match json_strip v with
      | Raise e => inr (err_generate e)
      | Ok sql0 =>
          let sql := drop_semicolon sql0 in
          if negb (validate_sql sql) then inr err_unsafe
          else match enforce_schema_strictly sql schema with
               | (false, invalid_name) => inr (err_unknown_name invalid_name)
               | (true, _) => inl sql
               end
      end
  end.

(** [for attempt in range(...)]: the statement returned and the attempts
    made, in order. *)
Fixpoint retry_go (gen : nat -> option str -> result json) (schema : list descriptor)
  (attempt left : nat) (last_error : option str) : str * list nat :=
  match left with
  | O => (fallback_sql, [])
  | S left' =>
      match attempt_step gen schema attempt last_error with
      | inl sql => (sql, [attempt])
      | inr err =>
          let '(sql, tried) := retry_go gen schema (S attempt) left' (Some err) in
          (sql, attempt :: tried)
      end
  end.

Definition retry_loop (gen : nat -> option str -> result json) (schema : list descriptor)
  (max_retries : Z) : str * list nat :=
  retry_go gen schema 0 (Z.to_nat (max_retries + 1)) None.

(** [ask_llm_for_sql_with_retry(question, max_retries)]: the schema is
    built once, before the loop, and its exception is not caught. *)
Definition ask_llm_for_sql_with_retry (E : env) (question : str) (max_retries : Z)
  : result str * list nat :=
  match fst (build_schema_summary E None) with
  | Raise e => (Raise e, [])
  | Ok schema =>
      let '(sql, tried) := retry_loop (generate E question) schema max_retries in
      (Ok sql, tried)
  end.

(* ================================================================= *)
(** ** [run_query_pipeline] (lines 657-729) *)

(** The dict the pipeline returns: a success object with [text], [payload]
    and [meta], or an error object. *)
Inductive pipeline_out :=
| PSuccess (text : str) (columns : list str) (rows : list (list outval))
           (row_count : nat) (generated_sql : str)
| PError (error : str) (details : option str) (generated_sql : str)
         (suggestion : option str).

Definition msg_no_valid_query : str :=
  T "Tidak dapat membuat query yang valid untuk pertanyaan ini".
Definition msg_suggestion : str :=
  T "Coba perbaiki pertanyaan atau pastikan data yang dicari tersedia dalam sistem".
Definition msg_failed_validation : str := T "Generated SQL failed final validation.".
Definition msg_invalid_name (invalid_name : option str) : str :=
  T "Query uses invalid column or table: " ++ opt_str invalid_name.
Definition msg_exec_failed : str := T "Query execution failed".

Definition run_query_pipeline (E : env) (question : str) : result pipeline_out :=
  let relevant_tables := vector_tables E question in
  match ask_llm_for_sql_full E question with
  | Raise e => Raise e
  | Ok v =>
  match json_strip v with
  | Raise e => Raise e
  | Ok raw0 =>
  let raw_sql := drop_semicolon raw0 in
  if contains (T "Gagal generate SQL yang valid") raw_sql
     || contains (T "Data tidak tersedia") raw_sql
  then Ok (PError msg_no_valid_query None raw_sql (Some msg_suggestion))
  else
  match fst (build_schema_summary E (Some relevant_tables)) with
  | Raise e => Raise e
  | Ok schema_summary =>
  if negb (validate_sql raw_sql) then Ok (PError msg_failed_validation None raw_sql None)
  else
  match enforce_schema_strictly raw_sql schema_summary with
  | (false, invalid_name) => Ok (PError (msg_invalid_name invalid_name) None raw_sql None)
  | (true, _) =>
  match execute_read_query (db_query E) raw_sql (MAX_ROWS E) with
  | Raise e => Ok (PError msg_exec_failed (Some (exn_str e)) raw_sql None)
  | Ok (columns, rows0) =>
      let rows := map serialize_row rows0 in
      match summarize E question (firstn 5 rows) with
      | Raise e => Raise e
      | Ok summary =>
          Ok (PSuccess summary columns (map (map snd) rows) (length rows) raw_sql)
      end
  end
  end
  end
  end
  end.


(* ================================================================= *)
(** ** A concrete environment *)

(** kdmp-tables.json with the table [cooperatives]. *)
Definition kdmp_cooperatives : list (str * table_meta) :=
  [(T "cooperatives",
    {| tm_description := Some (T "koperasi");
       tm_columns :=
         [ {| cm_name := Some (T "name"); cm_type := Some (T "varchar");
              cm_description := Some (T "nama koperasi") |};
           {| cm_name := Some (T "villageId"); cm_type := Some (T "bigint");
              cm_description := Some (T "desa") |} ] |})].

(** Every service answers; the completion is [completion] at every call and
    every statement yields the single row [(5)] under [count]. *)
Definition demo_env (completion : str) : env := {|
  vector_tables := fun _ => [T "cooperatives"; T "provinces"];
  llm := fun _ _ => Ok completion;
  kdmp := Tables kdmp_cooperatives;
  db_tables := Ok [T "cooperatives"];
  db_connect := Ok tt;
  db_columns := fun _ => Ok [(T "name", T "character varying")];
  db_samples := fun _ _ => Ok [];
  db_query := fun _ => Ok ([T "count"], [[DInt 5]]);
  summarize := fun _ _ => Ok (T "Terdapat 5 koperasi.");
  MAX_ROWS := 5000;
  SAMPLE_ROWS := 2
|}.

(** Every column entry of kdmp-tables.json has a [name] and a [type], so
    the kdmp path raises no KeyError. *)
Definition well_formed (tables : list (str * table_meta)) : bool :=
  forallb (fun kv => forallb (fun c => is_some (cm_name c) && is_some (cm_type c))
                             (tm_columns (snd kv))) tables.

(** A table known to kdmp-tables.json or to the live database. *)
Definition known_table (E : env) (t : str) : bool :=
  match kdmp E with Tables tables => is_some (table_lookup tables t) | _ => false end
  || match db_tables E with Ok l => mem t l | Raise _ => false end.

(** No kdmp-tables.json; the database knows [cooperatives]; [cols_ok]
    says whether describing its columns succeeds. *)
Definition db_env (cols_ok : bool) : env := {|
  vector_tables := fun _ => [T "cooperatives"];
  llm := fun _ _ => Ok (TQ "{`sql`: `SELECT name FROM cooperatives`}");
  kdmp := NoFile;
  db_tables := Ok [T "cooperatives"];
  db_connect := Ok tt;
  db_columns := fun _ => if cols_ok then Ok [(T "name", T "character varying")]
                         else Raise (DbError (T "current transaction is aborted"));
  db_samples := fun _ _ => Ok [];
  db_query := fun _ => Ok ([T "name"], [[DStr (T "Koperasi Merah Putih")]]);
  summarize := fun _ _ => Ok (T "Satu koperasi.");
  MAX_ROWS := 5000;
  SAMPLE_ROWS := 2
|}.

(** A request for a known and an unknown table, and what the builder
    returns for it in [demo_env]. *)
Definition demo_request : list str := [T "cooperatives"; T "nope"].
Definition demo_ds : list descriptor :=
  match fst (build_schema_summary (demo_env []) (Some demo_request)) with
  | Ok ds => ds | Raise _ => [] end.
Definition demo_logs : list log := snd (build_schema_summary (demo_env []) (Some demo_request)).

(* ================================================================= *)
(** ** Table search ([search_relevant_tables], [extract_table_names],
       [get_fallback_tables], lines 41-137) *)

Definition common_tables : list str :=
  map T ["cooperatives"; "provinces"; "districts"; "subdistricts"; "villages"; "users";
         "cooperative_types"; "klus"; "npaks"; "institutions"; "news"; "village_potentials"]%string.

Definition geographical_tables : list str :=
  map T ["provinces"; "districts"; "subdistricts"; "villages"; "village_potentials"]%string.

(** The loop of [extract_table_names] adding the missing geographical tables
    (lines 110-116); it is used by the theorems, the definition itself keeps
    the loop inline. *)
Definition add_missing (acc : list str) (gs : list str) : list str :=
  fold_left (fun acc geo_table => if mem geo_table acc then acc else acc ++ [geo_table]) gs acc.

(** [extract_table_names]: the known names occurring in the lower-cased
    answer, in list order, then the missing geographical tables when a
    village table was found. *)
Definition extract_table_names (response_content : str) : list str :=
  let response_lower := lower_str response_content in
  let found_tables := filter (fun table => contains table response_lower) common_tables in
  if existsb (fun geo_table => mem geo_table found_tables)
             (map T ["villages"; "village_potentials"]%string)
  then fold_left (fun acc geo_table => if mem geo_table acc then acc else acc ++ [geo_table])
                 geographical_tables found_tables
  else found_tables.

(** [get_fallback_tables] *)
Definition get_fallback_tables (question : str) : list str :=
  let question_lower := lower_str question in
  let any_word ws := existsb (fun word => contains word question_lower) (map T ws) in
  if any_word ["koperasi"; "cooperative"; "berapa koperasi"; "jumlah koperasi"]%string
  then map T ["cooperatives"; "provinces"]%string
  else if any_word ["provinsi"; "daerah"; "wilayah"]%string
  then map T ["provinces"; "districts"; "cooperatives"]%string
  else if any_word ["user"; "pengguna"; "anggota"]%string
  then map T ["users"; "user_roles"]%string
  else if any_word ["berita"; "news"]%string
  then map T ["news"]%string
  else map T ["cooperatives"; "provinces"; "users"]%string.

(** How the assistant run of the vector-store search ends: completed with
    the text of its first message, ended in another status, or raised
    (a missing assistant id, a service error, an answer without text).
    The polling loop itself is not modelled. *)
Inductive run_outcome :=
| RunCompleted (response_content : str)
| RunNotCompleted (status : str)
| RunRaised (e : exn).

(** [search_relevant_tables]: every exception is caught. *)
Definition search_relevant_tables (run : run_outcome) (question : str) (max_tables : Z)
  : list str :=
  match run with
  | RunCompleted response_content =>
      py_slice_upto (extract_table_names response_content) max_tables
  | RunNotCompleted _ | RunRaised _ => get_fallback_tables question
  end.

(* ================================================================= *)
(** ** The HTTP routes of [src/main.py] *)

Inductive http_response :=
| HttpJson (body : pipeline_out)      (* the pipeline's dict, as JSON *)
| HttpAnswer (answer : str)           (* {"answer": ...} *)
| HttpError (status : nat) (detail : str).

(** [POST /chat] *)
Definition chat (E : env) (question : str) : http_response :=
  match run_query_pipeline E question with
  | Ok result => HttpJson result
  | Raise e => HttpError 500 (exn_str e)
  end.

(** [POST /chat/humanized]: an error object has the key [error], a success
    object has [text]. *)
Definition chat_humanized (E : env) (question : str) : http_response :=
  match run_query_pipeline E question with
  | Raise e => HttpError 500 (exn_str e)
  | Ok (PError error _ _ _) => HttpAnswer (T "Terjadi kesalahan: " ++ error)
  | Ok (PSuccess text _ _ _ _) => HttpAnswer text
  end.

(* ================================================================= *)
(** ** Fixtures and auxiliary maps *)

(** The schema of [src/test_validation.py]. *)
Definition mock_schema : list descriptor :=
  [{| d_table := T "cooperatives"; d_description := None;
      d_columns := map T ["cooperative_id BIGINT"; "name VARCHAR(256)";
                          "villageId BIGINT"; "provinceId BIGINT"]%string;
      d_sample_rows := [] |}].

(** Lower-casing applied to the pieces a scanner returns. *)
Definition lower_pair (p : str * str) : str * str := (lower_str (fst p), lower_str (snd p)).

Definition lower_match (r : (str * str) * str) : (str * str) * str :=
  (lower_pair (fst r), lower_str (snd r)).

(** The statement of the safety-gate example. *)
Definition unsafe_example : str := T "SELECT * FROM cooperatives; DROP TABLE cooperatives".

(** A completion holding no JSON. *)
Definition malformed_completion : str := T "Maaf, saya tidak bisa.".

(** A completion asking for a count. *)
Definition count_query : str := TQ "{`sql`: `SELECT COUNT(*) FROM cooperatives`}".

(** An engine answer of two rows. *)
Definition two_rows (_ : str) : result (list str * list (list dbval)) :=
  Ok ([T "id"], [[DInt 1]; [DInt 2]]).

(** A statement whose result has two columns of the same name. *)
Definition dup_env : env := {|
  vector_tables := fun _ => [T "cooperatives"];
  llm := fun _ _ => Ok (TQ "{`sql`: `SELECT name FROM cooperatives`}");
  kdmp := Tables kdmp_cooperatives;
  db_tables := Ok [T "cooperatives"];
  db_connect := Ok tt;
  db_columns := fun _ => Ok [(T "name", T "character varying")];
  db_samples := fun _ _ => Ok [];
  db_query := fun _ => Ok ([T "name"; T "name"], [[DStr (T "A"); DStr (T "B")]]);
  summarize := fun _ _ => Ok (T "Satu koperasi.");
  MAX_ROWS := 5000;
  SAMPLE_ROWS := 2
|}.

(** kdmp-tables.json given by [file], the database knowing [cooperatives],
    and [fetch_sample_rows] answering [samples]. *)
Definition samples_env (file : kdmp_file) (samples : result (list (row dbval))) : env := {|
  vector_tables := fun _ => [T "cooperatives"];
  llm := fun _ _ => Ok (TQ "{`sql`: `SELECT name FROM cooperatives`}");
  kdmp := file;
  db_tables := Ok [T "cooperatives"];
  db_connect := Ok tt;
  db_columns := fun _ => Ok [(T "name", T "character varying")];
  db_samples := fun _ _ => samples;
  db_query := fun _ => Ok ([T "name"], [[DStr (T "A")]]);
  summarize := fun _ _ => Ok (T "Satu koperasi.");
  MAX_ROWS := 5000;
  SAMPLE_ROWS := 2
|}.

(** Three sample rows, one more than [SAMPLE_ROWS]. *)
Definition three_samples : list (row dbval) :=
  [[(T "id", DInt 1)]; [(T "id", DInt 2)]; [(T "id", DInt 3)]].

(** kdmp-tables.json whose column entry of [cooperatives] lacks [type]. *)
Definition kdmp_no_type : list (str * table_meta) :=
  [(T "cooperatives",
    {| tm_description := Some (T "koperasi");
       tm_columns := [ {| cm_name := Some (T "name"); cm_type := None;
                          cm_description := None |} ] |})].

(* ================================================================= *)
(** ** The claims as written, where a counterexample refutes them *)

(** C2, the validator part: it accepts exactly the statements that begin
    with SELECT after leading whitespace and hold no forbidden text. *)
Definition claim_C2_as_written : Prop := forall s, validate_sql s = spec_safe s.

(** C7: at most [N] rows, under the engine's columns. *)
Definition claim_C7_as_written : Prop :=
  forall db_query sql (N : Z) columns rows,
    execute_read_query db_query sql N = Ok (columns, rows) ->
    (Z.of_nat (length rows) <= N)%Z
    /\ exists fetched, db_query sql = Ok (columns, fetched).

(** The table names the metadata source knows: kdmp-tables.json when the
    file is loadable, the live database otherwise. *)
Definition metadata_names (E : env) : list str :=
  match kdmp E with
  | Tables tables => map fst tables
  | _ => match db_tables E with Ok l => l | Raise _ => [] end
  end.

(** C8: for a non-empty set of names, descriptors only for requested names
    known to the metadata, each once; a requested name the metadata does
    not know gets no descriptor and a warning. *)
Definition claim_C8_as_written : Prop :=
  forall E relevant ds logs,
    relevant <> [] -> NoDup relevant ->
    build_schema_summary E (Some relevant) = (Ok ds, logs) ->
    (forall d, In d ds -> In (d_table d) relevant /\ In (d_table d) (metadata_names E))
    /\ NoDup (map d_table ds)
    /\ (forall t, In t relevant -> ~ In t (metadata_names E) ->
                  ~ In t (map d_table ds) /\ In (WarnMissing t) logs).

(** C10: the empty list behaves as no argument, and then every table of
    the metadata source gets a descriptor. *)
Definition claim_C10_as_written : Prop :=
  forall E,
    build_schema_summary E (Some []) = build_schema_summary E None
    /\ (forall ds logs, build_schema_summary E None = (Ok ds, logs) ->
          forall t, In t (metadata_names E) -> In t (map d_table ds)).

(* ================================================================= *)
(** * Proofs *)

Example validate_ok :
  validate_sql (T "  select name FROM cooperatives") = true.
Proof. reflexivity. Qed.

Example validate_drop :
  validate_sql (T "SELECT * FROM cooperatives; DROP TABLE cooperatives") = false.
Proof. reflexivity. Qed.

Example validate_created_at :
  validate_sql (T "SELECT created_at FROM cooperatives") = true.
Proof. reflexivity. Qed.

Example validate_no_space :
  validate_sql (T "SELECT*FROM cooperatives") = false.
Proof. reflexivity. Qed.

(** ** Splitting lemmas *)

Lemma any_split_ext (f g : str -> str -> bool) (s : str) :
  (forall p q, f p q = g p q) -> any_split f s = any_split g s.
Proof.
  revert f g; induction s as [|c r IH]; intros f g Hfg; cbn; rewrite Hfg;
    [reflexivity|].
  f_equal. apply IH. intros; apply Hfg.
Qed.

Lemma any_split_false (s : str) : any_split (fun _ _ => false) s = false.
Proof.
  induction s as [|c r IH]; cbn; [reflexivity|]. exact IH.
Qed.

Lemma any_split_orb (f g : str -> str -> bool) (s : str) :
  any_split (fun p q => f p q || g p q) s = any_split f s || any_split g s.
Proof.
  revert f g; induction s as [|c r IH]; intros f g; cbn.
  - destruct (f [] []), (g [] []); reflexivity.
  - rewrite (IH (fun p q => f (c :: p) q) (fun p q => g (c :: p) q)).
    destruct (f [] (c :: r)), (g [] (c :: r)),
      (any_split (fun p q => f (c :: p) q) r),
      (any_split (fun p q => g (c :: p) q) r); reflexivity.
Qed.

Lemma any_split_existsb (h : str -> str -> str -> bool) (l : list str) (s : str) :
  any_split (fun p q => existsb (fun k => h k p q) l) s
  = existsb (fun k => any_split (h k) s) l.
Proof.
  induction l as [|k l IH]; cbn.
  - apply any_split_false.
  - rewrite any_split_orb, IH. reflexivity.
Qed.

Lemma negb_existsb {A} (f : A -> bool) (l : list A) :
  negb (existsb f l) = forallb (fun x => negb (f x)) l.
Proof.
  induction l as [|x l IH]; cbn; [reflexivity|].
  rewrite negb_orb, IH. reflexivity.
Qed.

(** [_FORBIDDEN_RE.search] succeeds iff some split point starts a match. *)
Lemma forbidden_search_split (b : bool) (s : str) :
  forbidden_search b s = any_split (fun p q => forbidden_here (last_word b p) q) s.
Proof.
  revert b; induction s as [|c r IH]; intros b; cbn; [reflexivity|].
  f_equal. apply IH.
Qed.

Lemma forbidden_search_spec (s : str) :
  negb (forbidden_search false s) = no_forbidden_text s.
Proof.
  rewrite forbidden_search_split. unfold forbidden_here, no_forbidden_text.
  rewrite any_split_orb, any_split_orb, any_split_existsb.
  unfold contains, contains_word_ci, keyword_here.
  rewrite !negb_orb, negb_existsb. reflexivity.
Qed.

Lemma validate_sql_spec (s : str) : validate_sql s = spec_safe_select_space s.
Proof.
  unfold validate_sql, spec_safe_select_space, select_only_search.
  rewrite <- forbidden_search_spec.
  destruct (prefix_ci (T "SELECT") (skip_spaces s)),
    (starts_with is_space (skipn 6 (skip_spaces s))),
    (forbidden_search false s); reflexivity.
Qed.

Example enforce_test_validation :
  enforce_schema_strictly
    (TQ "SELECT COUNT(*) FROM cooperatives c1 WHERE c1.`villageId` IN (SELECT c2.`villageId` FROM cooperatives c2 GROUP BY c2.`villageId` HAVING COUNT(*) >= 2)")
    mock_schema = (true, None).
Proof. vm_compute. reflexivity. Qed.

(* ================================================================= *)
(** ** C1: quoted identifiers are matched by exact case *)

Lemma exact_column_false (schema : list descriptor) (q : str) :
  (forall d c, In d schema -> In c (d_columns d) -> col_name c <> q) ->
  exact_column schema q = false.
Proof.
  intros H. unfold exact_column.
  apply not_true_iff_false. intros Hex.
  apply existsb_exists in Hex as [d [Hd Hc]].
  apply existsb_exists in Hc as [c [Hc Heq]].
  unfold str_eqb in Heq. destruct (list_eq_dec ascii_dec (col_name c) q); [|discriminate].
  exact (H d c Hd Hc e).
Qed.

Lemma check_quoted_first (schema : list descriptor) (pre post : list str) (q : str) :
  forallb (exact_column schema) pre = true ->
  exact_column schema q = false ->
  check_quoted schema (pre ++ q :: post) = Some (quoted_report q).
Proof.
  intros Hpre Hq. induction pre as [|x pre IH]; cbn in *.
  - rewrite Hq. reflexivity.
  - apply andb_prop in Hpre as [Hx Hpre]. rewrite Hx. exact (IH Hpre).
Qed.

(** C1 (amended).  If the double-quoted identifiers of a statement, read left
    to right, are [pre ++ q :: post], every identifier of [pre] names a
    column of the context exactly, and [q] is no column name of the context
    compared case-sensitively, then [enforce_schema_strictly] rejects the
    statement and reports [q], whatever the rest of the statement is.  So a
    quoted identifier differing only in case from a column is rejected, and
    the report names the first failing quoted identifier. *)
Theorem enforce_quoted_exact_case (schema : list descriptor) (sql : str)
    (pre post : list str) (q : str) :
  quoted_identifiers sql = pre ++ q :: post ->
  forallb (exact_column schema) pre = true ->
  (forall d c, In d schema -> In c (d_columns d) -> col_name c <> q) ->
  enforce_schema_strictly sql schema = (false, Some (quoted_report q)).
Proof.
  intros Hsplit Hpre Hq.
  unfold enforce_schema_strictly. cbv zeta.
  rewrite Hsplit, (check_quoted_first schema pre post q Hpre (exact_column_false _ _ Hq)).
  reflexivity.
Qed.

Lemma enforce_quoted_exact_case_witness :
  quoted_identifiers (TQ "SELECT `Name` FROM cooperatives") = [] ++ T "Name" :: []
  /\ enforce_schema_strictly (TQ "SELECT `Name` FROM cooperatives") coop_schema
     = (false, Some (quoted_report (T "Name"))).
Proof.
  split; [vm_compute; reflexivity|].
  apply (enforce_quoted_exact_case coop_schema _ [] []).
  - vm_compute. reflexivity.
  - reflexivity.
  - intros d c Hd Hc. cbn in Hd. destruct Hd as [<-|[]].
    cbn in Hc. destruct Hc as [<-|[<-|[]]]; vm_compute; discriminate.
Defined.

(** C1 as written fails: with two unknown quoted identifiers, the second is
    not the one reported. *)
Lemma claim_C1_counterexample : ~ claim_C1_as_written.
Proof.
  intros H.
  specialize (H coop_schema (TQ "SELECT `A`, `B` FROM cooperatives") (T "B")).
  assert (Hin : In (T "B") (quoted_identifiers (TQ "SELECT `A`, `B` FROM cooperatives")))
    by (vm_compute; right; left; reflexivity).
  specialize (H Hin).
  assert (Hcol : forall d c, In d coop_schema -> In c (d_columns d) -> col_name c <> T "B").
  { intros d c Hd Hc. cbn in Hd. destruct Hd as [<-|[]].
    cbn in Hc. destruct Hc as [<-|[<-|[]]]; vm_compute; discriminate. }
  specialize (H Hcol). vm_compute in H. discriminate H.
Qed.

(* ================================================================= *)
(** ** Letter case of the text *)

Ltac all_chars c := destruct c as [[] [] [] [] [] [] [] []]; reflexivity.

Lemma is_word_lower c : is_word (lower c) = is_word c.
Proof. all_chars c. Qed.

Lemma is_space_lower c : is_space (lower c) = is_space c.
Proof. all_chars c. Qed.

Lemma is_ident_start_lower c : is_ident_start (lower c) = is_ident_start c.
Proof. all_chars c. Qed.

Lemma is_ident_char_lower c : is_ident_char (lower c) = is_ident_char c.
Proof. all_chars c. Qed.

Lemma lower_idem c : lower (lower c) = lower c.
Proof. all_chars c. Qed.

Lemma lower_dq c : Ascii.eqb (lower c) dq = Ascii.eqb c dq.
Proof. all_chars c. Qed.

Lemma lower_sq c : Ascii.eqb (lower c) sq = Ascii.eqb c sq.
Proof. all_chars c. Qed.

Lemma lower_str_idem s : lower_str (lower_str s) = lower_str s.
Proof.
  unfold lower_str. rewrite map_map. apply map_ext. apply lower_idem.
Qed.

Lemma last_word_lower b p : last_word b (lower_str p) = last_word b p.
Proof.
  revert b; induction p as [|c p IH]; intros b; cbn; [reflexivity|].
  rewrite is_word_lower. apply IH.
Qed.

Lemma prefix_ci_lower k s : prefix_ci k (lower_str s) = prefix_ci k s.
Proof.
  revert s; induction k as [|a k IH]; intros [|c s]; cbn; try reflexivity.
  unfold ci_eq. rewrite lower_idem, IH. reflexivity.
Qed.

Lemma starts_with_lower (P : ascii -> bool) s :
  (forall c, P (lower c) = P c) -> starts_with P (lower_str s) = starts_with P s.
Proof. intros HP. destruct s; cbn; auto. Qed.

Lemma span_lower (P : ascii -> bool) s :
  (forall c, P (lower c) = P c) ->
  span P (lower_str s) = (lower_str (fst (span P s)), lower_str (snd (span P s))).
Proof.
  intros HP. induction s as [|c s IH]; cbn; [reflexivity|].
  rewrite HP. destruct (P c); [|reflexivity].
  fold (lower_str s). rewrite IH. destruct (span P s); reflexivity.
Qed.

Lemma m_spaces1_lower s : m_spaces1 (lower_str s) = option_map lower_str (m_spaces1 s).
Proof.
  unfold m_spaces1. rewrite (span_lower _ _ is_space_lower).
  destruct (span is_space s) as [[|x a] b]; reflexivity.
Qed.

Lemma m_ident_lower s : m_ident (lower_str s) = option_map lower_pair (m_ident s).
Proof.
  destruct s as [|c r]; [reflexivity|]. unfold m_ident, lower_str. cbn [map].
  rewrite is_ident_start_lower. destruct (is_ident_start c); [|reflexivity].
  change (lower c :: map lower r) with (lower_str (c :: r)).
  rewrite (span_lower _ _ is_ident_char_lower). reflexivity.
Qed.

Lemma m_word_ci_lower k s : m_word_ci k (lower_str s) = option_map lower_str (m_word_ci k s).
Proof.
  unfold m_word_ci. rewrite prefix_ci_lower.
  destruct (prefix_ci k s); [|reflexivity].
  cbn. unfold lower_str. rewrite skipn_map. reflexivity.
Qed.

Section FindallLower.

Context {A : Type} (m : bool -> str -> option (A * str)) (fa : A -> A).

Hypothesis m_lower : forall prev s,
  m prev (lower_str s) = option_map (fun ar => (fa (fst ar), lower_str (snd ar))) (m prev s).

Lemma findall_go_lower fuel prev s :
  findall_go m fuel prev (lower_str s) = map fa (findall_go m fuel prev s).
Proof.
  revert prev s; induction fuel as [|f IH]; intros prev s; cbn; [reflexivity|].
  rewrite m_lower. destruct (m prev s) as [[a rest]|]; cbn.
  - unfold lower_str. rewrite !length_map, firstn_map.
    change (map lower (firstn (length s - length rest) s))
      with (lower_str (firstn (length s - length rest) s)).
    rewrite last_word_lower. f_equal. apply IH.
  - destruct s as [|c r]; cbn; [reflexivity|].
    rewrite is_word_lower. apply IH.
Qed.

Lemma findall_lower s : findall m (lower_str s) = map fa (findall m s).
Proof.
  unfold findall. unfold lower_str at 1. rewrite length_map. apply findall_go_lower.
Qed.

End FindallLower.

Lemma sub_empty_lower (m : str -> option str) :
  (forall s, m (lower_str s) = option_map lower_str (m s)) ->
  forall s, sub_empty m (lower_str s) = lower_str (sub_empty m s).
Proof.
  intros Hm s. unfold sub_empty. unfold lower_str at 1. rewrite length_map.
  generalize (S (length s)) as fuel. intros fuel. revert s.
  induction fuel as [|f IH]; intros s; cbn; [reflexivity|].
  rewrite Hm. destruct (m s) as [rest|]; cbn; [apply IH|].
  destruct s as [|c r]; cbn; [reflexivity|]. f_equal. apply IH.
Qed.

Lemma m_quoted_lower (qc : ascii) :
  (forall c, Ascii.eqb (lower c) qc = Ascii.eqb c qc) ->
  forall s, m_quoted qc (lower_str s) = option_map lower_pair (m_quoted qc s).
Proof.
  intros Hqc [|c r]; [reflexivity|]. unfold m_quoted, lower_str. cbn [map].
  rewrite Hqc. destruct (Ascii.eqb c qc); [|reflexivity].
  fold (lower_str r).
  rewrite (span_lower (fun x => negb (Ascii.eqb x qc)) r) by (intros x; rewrite Hqc; reflexivity).
  destruct (span (fun x => negb (Ascii.eqb x qc)) r) as [body [|q rest]]; reflexivity.
Qed.

Lemma m_identifier_lower prev s :
  m_identifier prev (lower_str s) = option_map lower_pair (m_identifier prev s).
Proof.
  unfold m_identifier. destruct prev; [reflexivity|].
  rewrite m_ident_lower. destruct (m_ident s) as [[id rest]|]; cbn; [|reflexivity].
  rewrite (starts_with_lower _ _ is_word_lower).
  destruct (starts_with is_word rest); reflexivity.
Qed.

Lemma m_kw_table_lower k prev s :
  m_kw_table k prev (lower_str s) = option_map lower_pair (m_kw_table k prev s).
Proof.
  unfold m_kw_table. destruct prev; [reflexivity|].
  rewrite m_word_ci_lower. destruct (m_word_ci k s) as [s1|]; cbn; [|reflexivity].
  rewrite m_spaces1_lower. destruct (m_spaces1 s1) as [s2|]; cbn; [|reflexivity].
  apply m_ident_lower.
Qed.

Lemma m_kw_alias_lower k prev s :
  m_kw_alias k prev (lower_str s) = option_map lower_match (m_kw_alias k prev s).
Proof.
  unfold m_kw_alias. rewrite m_kw_table_lower.
  destruct (m_kw_table k prev s) as [[t s1]|]; cbn; [|reflexivity].
  rewrite m_spaces1_lower. destruct (m_spaces1 s1) as [s2|]; cbn; [|reflexivity].
  rewrite m_ident_lower. destruct (m_ident s2) as [[a rest]|]; reflexivity.
Qed.

Lemma m_kw_as_alias1_lower k prev s :
  m_kw_as_alias1 k prev (lower_str s) = option_map lower_match (m_kw_as_alias1 k prev s).
Proof.
  unfold m_kw_as_alias1. generalize (T "AS") as kas. intros kas.
  rewrite m_kw_table_lower.
  destruct (m_kw_table k prev s) as [[t s1]|]; cbn; [|reflexivity].
  rewrite m_spaces1_lower. destruct (m_spaces1 s1) as [s2|]; cbn; [|reflexivity].
  rewrite m_word_ci_lower. destruct (m_word_ci kas s2) as [s3|]; cbn; [|reflexivity].
  rewrite m_spaces1_lower. destruct (m_spaces1 s3) as [s4|]; cbn; [|reflexivity].
  rewrite m_ident_lower. destruct (m_ident s4) as [[a rest]|]; reflexivity.
Qed.

Lemma m_as_alias_lower prev s :
  m_as_alias prev (lower_str s) = option_map lower_match (m_as_alias prev s).
Proof.
  unfold m_as_alias. rewrite !m_kw_as_alias1_lower.
  destruct (m_kw_as_alias1 (T "FROM") prev s); reflexivity.
Qed.

Lemma strip_literals_lower s : strip_literals (lower_str s) = lower_str (strip_literals s).
Proof.
  apply sub_empty_lower. intros x.
  rewrite (m_quoted_lower sq lower_sq). destruct (m_quoted sq x); reflexivity.
Qed.

Lemma strip_quoted_lower s : strip_quoted (lower_str s) = lower_str (strip_quoted s).
Proof.
  apply sub_empty_lower. intros x.
  rewrite (m_quoted_lower dq lower_dq). destruct (m_quoted dq x); reflexivity.
Qed.

Lemma potential_identifiers_lower s :
  potential_identifiers (lower_str s) = map lower_str (potential_identifiers s).
Proof. apply findall_lower. apply m_identifier_lower. Qed.

Lemma from_join_tables_lower k s :
  findall (m_kw_table k) (lower_str s) = map lower_str (findall (m_kw_table k) s).
Proof. apply findall_lower. apply m_kw_table_lower. Qed.

Lemma add_aliases_lower vt acc ms :
  add_aliases vt acc (map lower_pair ms) = add_aliases vt acc ms.
Proof.
  unfold add_aliases. revert acc; induction ms as [|[t a] ms IH]; intros acc;
    cbn [map fold_left]; [reflexivity|].
  change (lower_pair (t, a)) with (lower_str t, lower_str a). cbn [fst snd].
  rewrite !lower_str_idem. apply IH.
Qed.

Lemma extract_table_aliases_lower s vt :
  extract_table_aliases (lower_str s) vt = extract_table_aliases s vt.
Proof.
  unfold extract_table_aliases.
  rewrite (findall_lower _ lower_pair (m_kw_alias_lower (T "FROM"))),
          (findall_lower _ lower_pair (m_kw_alias_lower (T "JOIN"))),
          (findall_lower _ lower_pair m_as_alias_lower), !add_aliases_lower.
  reflexivity.
Qed.

Lemma check_unquoted_case aliases vt vc ids1 ids2 :
  map lower_str ids1 = map lower_str ids2 ->
  is_some (check_unquoted aliases vt vc ids1) = is_some (check_unquoted aliases vt vc ids2).
Proof.
  revert ids2; induction ids1 as [|x ids1 IH]; intros [|y ids2] H; cbn in H;
    try discriminate; [reflexivity|].
  injection H as Hxy Hr. cbn [check_unquoted check_tables]. rewrite Hxy.
  destruct (mem (lower_str y) sql_keywords); [auto|].
  destruct (mem (lower_str y) sql_functions); [auto|].
  destruct (mem (lower_str y) aliases); [auto|].
  destruct (mem (lower_str y) vt || mem (lower_str y) vc); [auto|reflexivity].
Qed.

Lemma check_tables_case vt ts1 ts2 :
  map lower_str ts1 = map lower_str ts2 ->
  is_some (check_tables vt ts1) = is_some (check_tables vt ts2).
Proof.
  revert ts2; induction ts1 as [|x ts1 IH]; intros [|y ts2] H; cbn in H;
    try discriminate; [reflexivity|].
  injection H as Hxy Hr. cbn [check_unquoted check_tables]. rewrite Hxy.
  destruct (mem (lower_str y) vt); [auto|reflexivity].
Qed.

(** C4.  With table cooperatives and column name in the context,
    [SELECT NAME FROM cooperatives] and [SELECT name FROM COOPERATIVES] get
    the same outcome (both accepted).  In general, for every context, two
    statements that are equal up to letter case and whose double-quoted
    spans are identical (the case changes lie outside double quotes: bare
    identifiers, keywords, FROM/JOIN operands) get the same verdict. *)
Theorem enforce_bare_case_insensitive :
  enforce_schema_strictly (T "SELECT NAME FROM cooperatives") coop_schema = (true, None)
  /\ enforce_schema_strictly (T "SELECT name FROM COOPERATIVES") coop_schema = (true, None)
  /\ (forall (schema : list descriptor) (s1 s2 : str),
        lower_str s1 = lower_str s2 ->
        quoted_identifiers s1 = quoted_identifiers s2 ->
        fst (enforce_schema_strictly s1 schema) = fst (enforce_schema_strictly s2 schema)).
Proof.
  split; [vm_compute; reflexivity|]. split; [vm_compute; reflexivity|].
  intros schema s1 s2 Hcase Hq.
  assert (Hal : extract_table_aliases s1 (valid_tables schema)
                = extract_table_aliases s2 (valid_tables schema)).
  { rewrite <- (extract_table_aliases_lower s1), <- (extract_table_aliases_lower s2), Hcase.
    reflexivity. }
  assert (Hpot : map lower_str (potential_identifiers (strip_quoted (strip_literals s1)))
                 = map lower_str (potential_identifiers (strip_quoted (strip_literals s2)))).
  { rewrite <- !potential_identifiers_lower, <- !strip_quoted_lower,
      <- !strip_literals_lower, Hcase. reflexivity. }
  assert (Htab : forall k, map lower_str (findall (m_kw_table k) s1)
                           = map lower_str (findall (m_kw_table k) s2)).
  { intros k. rewrite <- !from_join_tables_lower, Hcase. reflexivity. }
  unfold enforce_schema_strictly. cbv zeta. rewrite Hq, Hal.
  destruct (check_quoted schema (quoted_identifiers s2)); [reflexivity|].
  pose proof (check_unquoted_case (extract_table_aliases s2 (valid_tables schema))
                (valid_tables schema) (valid_columns schema) _ _ Hpot) as Hu.
  destruct (check_unquoted _ _ _ (potential_identifiers (strip_quoted (strip_literals s1)))),
           (check_unquoted _ _ _ (potential_identifiers (strip_quoted (strip_literals s2))));
    try discriminate Hu; [reflexivity|].
  assert (Ht : map lower_str (findall (m_kw_table (T "FROM")) s1 ++ findall (m_kw_table (T "JOIN")) s1)
               = map lower_str (findall (m_kw_table (T "FROM")) s2 ++ findall (m_kw_table (T "JOIN")) s2))
    by (rewrite !map_app, !Htab; reflexivity).
  pose proof (check_tables_case (valid_tables schema) _ _ Ht) as Hc.
  destruct (check_tables _ (findall (m_kw_table (T "FROM")) s1 ++ _)),
           (check_tables _ (findall (m_kw_table (T "FROM")) s2 ++ _));
    try discriminate Hc; reflexivity.
Qed.

Lemma enforce_bare_case_insensitive_witness :
  fst (enforce_schema_strictly (T "SELECT NAME FROM cooperatives") coop_schema)
  = fst (enforce_schema_strictly (T "SELECT name FROM COOPERATIVES") coop_schema).
Proof.
  apply (proj2 (proj2 enforce_bare_case_insensitive)); vm_compute; reflexivity.
Defined.

Example json_loads_obj :
  json_loads (TQ " {`sql`: `SELECT 1`, `n`: [1, -2.5e3, true, null]} ")
  = Some (JObj [(T "sql", JStr (T "SELECT 1"));
                (T "n", JArr [JNum (T "1"); JNum (T "-2.5e3"); JBool true; JNull])]).
Proof. vm_compute. reflexivity. Qed.

Example json_loads_bad : json_loads (TQ "{`sql`: 1,}") = None.
Proof. vm_compute. reflexivity. Qed.

(* ----------------------------------------------------------------- *)
(** ** C9: extraction of the statement from a completion *)

Example extract_sql_embedded :
  extract_sql invalid_json_msg (TQ "Sure! {`sql`: `SELECT 1`} ok") = Ok (JStr (T "SELECT 1")).
Proof. vm_compute. reflexivity. Qed.

Lemma sql_of_obj_ok (j : json) (v : json) :
  sql_of_obj j = Some (Ok v) -> exists kvs, j = JObj kvs /\ lookup_last key_sql kvs = Some v.
Proof.
  intro H. destruct j as [| | | s | l | kvs]; unfold sql_of_obj, py_contains_sql in H.
  1-3: discriminate.
  - destruct (contains key_sql s); cbn in H; discriminate.
  - destruct (existsb _ l); cbn in H; discriminate.
  - exists kvs. split; [reflexivity|].
    unfold py_getitem_sql in H.
    destruct (lookup_last key_sql kvs); cbn in H; congruence.
Qed.

Lemma sql_of_obj_raise (j : json) (e : exn) :
  sql_of_obj j = Some (Raise e) ->
  (exists m, e = TypeError m)
  /\ (j = JNull \/ (exists b, j = JBool b) \/ (exists n, j = JNum n)
      \/ (exists s, j = JStr s /\ contains key_sql s = true)
      \/ (exists l, j = JArr l /\ existsb (json_eqb (JStr key_sql)) l = true)).
Proof.
  intro H. destruct j as [| b | n | s | l | kvs]; unfold sql_of_obj, py_contains_sql, py_getitem_sql in H.
  - inversion H; subst. split; [eauto|]. left. reflexivity.
  - inversion H; subst. split; [eauto|]. right; left. eauto.
  - inversion H; subst. split; [eauto|]. right; right; left. eauto.
  - destruct (contains key_sql s) eqn:Hc; cbn in H; inversion H; subst.
    split; [eauto|]. right; right; right; left. eauto.
  - destruct (existsb _ l) eqn:Hc; cbn in H; inversion H; subst.
    split; [eauto|]. right; right; right; right. eauto.
  - destruct (lookup_last key_sql kvs); cbn in H; discriminate.
Qed.

Lemma sql_of_obj_type_error (j : json) :
  (j = JNull \/ (exists b, j = JBool b) \/ (exists n, j = JNum n)
   \/ (exists s, j = JStr s /\ contains key_sql s = true)
   \/ (exists l, j = JArr l /\ existsb (json_eqb (JStr key_sql)) l = true)) ->
  exists m, sql_of_obj j = Some (Raise (TypeError m)).
Proof.
  intros [->|[[b ->]|[[n ->]|[[s [-> Hc]]|[l [-> Hc]]]]]];
    unfold sql_of_obj, py_contains_sql, py_getitem_sql; try rewrite Hc; eexists; reflexivity.
Qed.

(** Counterexample to C9: the completion [{"sql": 5}] is accepted and the
    extracted value is the number 5, not a string. *)
Lemma claim_C9_counterexample : ~ claim_C9_as_written.
Proof.
  intro H. destruct (H (TQ "{`sql`: 5}")) as [H1 _].
  destruct (H1 (JNum (T "5"))) as [s Hs].
  - vm_compute. reflexivity.
  - discriminate.
Qed.

(** Claim C9 (code bug): a value is only ever returned from the [sql] key
    of a JSON object, which is either the whole text parsed as JSON or, when
    the whole text is not JSON, the span from the first opening brace to the
    last closing brace; that value can be any JSON value, not only a string.
    A failure is the invalid-response ValueError carrying the text, or a
    TypeError that the [except json.JSONDecodeError] clauses do not catch.
    The TypeError occurs exactly when the parsed JSON is null, a boolean, a
    number, a string containing [sql], or an array with the element
    ["sql"]. *)
Theorem extract_sql_outcome (msg text : str) :
  (forall v, extract_sql msg text = Ok v ->
     exists kvs, lookup_last key_sql kvs = Some v /\
       (json_loads text = Some (JObj kvs)
        \/ (json_loads text = None /\
            exists sub, brace_span text = Some sub /\ json_loads sub = Some (JObj kvs))))
  /\ (forall e, extract_sql msg text = Raise e ->
        e = ValueError (msg ++ text)
        \/ exists j m, e = TypeError m
             /\ (json_loads text = Some j
                 \/ (json_loads text = None /\
                     exists sub, brace_span text = Some sub /\ json_loads sub = Some j))
             /\ (j = JNull \/ (exists b, j = JBool b) \/ (exists n, j = JNum n)
                 \/ (exists s, j = JStr s /\ contains key_sql s = true)
                 \/ (exists l, j = JArr l /\ existsb (json_eqb (JStr key_sql)) l = true)))
  /\ (forall j, (json_loads text = Some j
                 \/ (json_loads text = None /\
                     exists sub, brace_span text = Some sub /\ json_loads sub = Some j)) ->
        (j = JNull \/ (exists b, j = JBool b) \/ (exists n, j = JNum n)
         \/ (exists s, j = JStr s /\ contains key_sql s = true)
         \/ (exists l, j = JArr l /\ existsb (json_eqb (JStr key_sql)) l = true)) ->
        exists m, extract_sql msg text = Raise (TypeError m)).
Proof.
  unfold extract_sql. split; [|split].
  - intros v H. destruct (json_loads text) as [obj|] eqn:E1.
    + destruct (sql_of_obj obj) as [r|] eqn:E2; [|discriminate]. subst r.
      destruct (sql_of_obj_ok _ _ E2) as [kvs [-> Hk]]. eauto.
    + destruct (brace_span text) as [sub|] eqn:E3; [|discriminate].
      destruct (json_loads sub) as [obj|] eqn:E4; [|discriminate].
      destruct (sql_of_obj obj) as [r|] eqn:E2; [|discriminate]. subst r.
      destruct (sql_of_obj_ok _ _ E2) as [kvs [-> Hk]].
      exists kvs. split; [exact Hk|]. right. eauto.
  - intros e H. destruct (json_loads text) as [obj|] eqn:E1.
    + destruct (sql_of_obj obj) as [r|] eqn:E2.
      * subst r. destruct (sql_of_obj_raise _ _ E2) as [[m ->] Hs].
        right. exists obj, m. auto.
      * inversion H. auto.
    + destruct (brace_span text) as [sub|] eqn:E3; [|inversion H; auto].
      destruct (json_loads sub) as [obj|] eqn:E4; [|inversion H; auto].
      destruct (sql_of_obj obj) as [r|] eqn:E2.
      * subst r. destruct (sql_of_obj_raise _ _ E2) as [[m ->] Hs].
        right. exists obj, m. split; [reflexivity|]. split; [|exact Hs].
        right. eauto.
      * inversion H. auto.
  - intros j Hp Hs. destruct (sql_of_obj_type_error j Hs) as [m Hm]. exists m.
    destruct Hp as [E1|(E1 & sub & E3 & E4)]; rewrite E1.
    + rewrite Hm. reflexivity.
    + rewrite E3, E4, Hm. reflexivity.
Qed.

(** On the completion [7] the extractor raises a TypeError. *)
Lemma extract_sql_outcome_witness :
  exists m, extract_sql invalid_json_msg (T "7") = Raise (TypeError m).
Proof.
  apply (proj2 (proj2 (extract_sql_outcome invalid_json_msg (T "7"))) (JNum (T "7"))).
  - left. vm_compute. reflexivity.
  - right; right; left. exists (T "7"). reflexivity.
Defined.

(* ----------------------------------------------------------------- *)
(** ** C2: the safety validator *)

(** Counterexample to C2: [SELECT*FROM cooperatives] begins with SELECT and
    holds no forbidden text, but the validator wants whitespace after
    SELECT and rejects it. *)
Lemma claim_C2_counterexample : ~ claim_C2_as_written.
Proof.
  intro H. specialize (H (T "SELECT*FROM cooperatives")).
  vm_compute in H. discriminate.
Qed.

(** Claim C2 (amended): the validator accepts a statement exactly when,
    after leading whitespace, it begins with SELECT (any case) followed by
    a whitespace character, and it holds no semicolon, no [--] and none of
    the seven keywords as a whole word (any case).  The statement
    [SELECT * FROM cooperatives; DROP TABLE cooperatives] is rejected, and in
    the pipeline a generated statement the validator rejects yields the
    validation error whatever the schema enforcement would say. *)
Theorem validate_sql_exact :
  (forall s, validate_sql s = spec_safe_select_space s)
  /\ validate_sql unsafe_example = false
  /\ (forall E q v raw0 schema,
        ask_llm_for_sql_full E q = Ok v ->
        json_strip v = Ok raw0 ->
        contains (T "Gagal generate SQL yang valid") (drop_semicolon raw0)
          || contains (T "Data tidak tersedia") (drop_semicolon raw0) = false ->
        fst (build_schema_summary E (Some (vector_tables E q))) = Ok schema ->
        validate_sql (drop_semicolon raw0) = false ->
        run_query_pipeline E q
        = Ok (PError msg_failed_validation None (drop_semicolon raw0) None)).
Proof.
  split; [exact validate_sql_spec|]. split; [vm_compute; reflexivity|].
  intros E q v raw0 schema H1 H2 H3 H4 H5. unfold run_query_pipeline.
  rewrite H1, H2, H3, H4, H5. reflexivity.
Qed.

Lemma validate_sql_exact_witness :
  run_query_pipeline (demo_env (TQ "{`sql`: `SELECT * FROM cooperatives; DROP TABLE cooperatives`}"))
                     (T "hapus")
  = Ok (PError msg_failed_validation None unsafe_example None).
Proof.
  apply (proj2 (proj2 validate_sql_exact)
           (demo_env (TQ "{`sql`: `SELECT * FROM cooperatives; DROP TABLE cooperatives`}"))
           (T "hapus") (JStr unsafe_example) unsafe_example
           (match fst (build_schema_summary
                         (demo_env (TQ "{`sql`: `SELECT * FROM cooperatives; DROP TABLE cooperatives`}"))
                         (Some [T "cooperatives"; T "provinces"])) with
            | Ok ds => ds | Raise _ => [] end));
    vm_compute; reflexivity.
Defined.

(* ----------------------------------------------------------------- *)
(** ** C3: the retry loop *)

(** The loop makes at most as many attempts as it is given, numbered from
    the first one on. *)
Lemma retry_go_attempts gen schema attempt left last_error :
  length (snd (retry_go gen schema attempt left last_error)) <= left.
Proof.
  revert attempt last_error. induction left as [|left IH]; intros attempt last_error; cbn.
  - lia.
  - destruct (attempt_step gen schema attempt last_error) as [sql|err]; cbn; [lia|].
    specialize (IH (S attempt) (Some err)).
    destruct (retry_go gen schema (S attempt) left (Some err)) as [sql tried]; cbn in *. lia.
Qed.

(** Claim C3: with [max_retries = 2], once the schema is built, if every
    attempt (whatever the feedback it is given) yields a statement that
    fails the safety or schema check, or raises while generating or reading
    the completion, the loop makes exactly the three attempts 0, 1 and 2
    and returns the fixed fallback statement, without an exception.  The
    schema build before the loop is outside the loop: its own exception is
    not caught. *)
Theorem retry_exhausts_to_fallback (E : env) (question : str) (schema : list descriptor) :
  fst (build_schema_summary E None) = Ok schema ->
  (forall i last_error, i < 3 ->
     exists err, attempt_step (generate E question) schema i last_error = inr err) ->
  ask_llm_for_sql_with_retry E question 2 = (Ok fallback_sql, [0; 1; 2]).
Proof.
  intros Hs Hfail. unfold ask_llm_for_sql_with_retry. rewrite Hs.
  unfold retry_loop. change (Z.to_nat (2 + 1)) with 3. cbn [retry_go].
  destruct (Hfail 0 None ltac:(lia)) as [e0 ->].
  destruct (Hfail 1 (Some e0) ltac:(lia)) as [e1 ->].
  destruct (Hfail 2 (Some e1) ltac:(lia)) as [e2 ->].
  reflexivity.
Qed.

Lemma retry_exhausts_to_fallback_witness :
  ask_llm_for_sql_with_retry (demo_env (T "Maaf, saya tidak bisa.")) (T "ada berapa koperasi") 2
  = (Ok fallback_sql, [0; 1; 2]).
Proof.
  apply (retry_exhausts_to_fallback (demo_env (T "Maaf, saya tidak bisa.")) (T "ada berapa koperasi")
           (match fst (build_schema_summary (demo_env (T "Maaf, saya tidak bisa.")) None) with
            | Ok ds => ds | Raise _ => [] end)).
  - vm_compute. reflexivity.
  - intros i last_error Hi.
    destruct i as [|[|[|i]]]; [| | | lia]; eexists; vm_compute; reflexivity.
Defined.

(* ----------------------------------------------------------------- *)
(** ** C5: exceptions reaching the caller of the pipeline *)

(** C5 does not hold of the code: the pipeline calls [ask_llm_for_sql],
    not the retry version, and lets its exception through.  On the
    question [ada berapa koperasi], a completion holding no JSON makes
    [run_query_pipeline] raise the invalid-response ValueError instead of
    returning an error object; in general any exception of the generation
    step reaches the caller unchanged. *)
Theorem run_query_pipeline_raises_on_malformed :
  run_query_pipeline (demo_env malformed_completion) (T "ada berapa koperasi")
  = Raise (ValueError (invalid_json_msg ++ malformed_completion))
  /\ (forall E q e, ask_llm_for_sql_full E q = Raise e -> run_query_pipeline E q = Raise e).
Proof.
  split.
  - vm_compute. reflexivity.
  - intros E q e H. unfold run_query_pipeline. rewrite H. reflexivity.
Qed.

Lemma run_query_pipeline_raises_on_malformed_witness :
  run_query_pipeline (demo_env malformed_completion) (T "ada berapa koperasi")
  = Raise (ValueError (invalid_json_msg ++ malformed_completion)).
Proof.
  apply (proj2 run_query_pipeline_raises_on_malformed).
  vm_compute. reflexivity.
Defined.

(* ----------------------------------------------------------------- *)
(** ** C6: [safe_serialize] *)

(** C6 does not hold of the code: datetimes and dates become their ISO
    text and Decimals become floats, but the final [str(obj)] also turns
    the JSON-native scalars into text: the integer 5 becomes ["5"], [None]
    becomes ["None"], [True] becomes ["True"], so a row count of 5 from the database
    reaches the payload as the string ["5"]. *)
Theorem safe_serialize_stringifies_json_scalars :
  (forall y mo d h mi s us,
     safe_serialize (DDateTime y mo d h mi s us) = OStr (datetime_iso y mo d h mi s us))
  /\ (forall y mo d, safe_serialize (DDate y mo d) = OStr (date_iso y mo d))
  /\ (forall m e, safe_serialize (DDecimal m e) = OFloatOfDecimal m e)
  /\ (forall z, safe_serialize (DInt z) = OStr (Z_to_str z))
  /\ (forall r, safe_serialize (DFloat r) = OStr r)
  /\ safe_serialize (DInt 5) = OStr (T "5")
  /\ safe_serialize DNone = OStr (T "None")
  /\ safe_serialize (DBool true) = OStr (T "True")
  /\ run_query_pipeline (demo_env count_query) (T "ada berapa koperasi")
     = Ok (PSuccess (T "Terdapat 5 koperasi.") [T "count"] [[OStr (T "5")]] 1
                    (T "SELECT COUNT(*) FROM cooperatives")).
Proof.
  repeat split; vm_compute; reflexivity.
Qed.

(* ----------------------------------------------------------------- *)
(** ** C7: the row cap of [execute_read_query] *)

Lemma py_slice_upto_length {A} (l : list A) (n : Z) :
  length (py_slice_upto l n)
  = if (0 <=? n)%Z then Nat.min (Z.to_nat n) (length l) else length l - Z.to_nat (- n).
Proof.
  unfold py_slice_upto. destruct (0 <=? n)%Z; rewrite length_firstn; lia.
Qed.

(** Counterexample to C7: with the cap [-1] (Python reads [l[:-1]]), a
    two-row result comes back with one row, more than the cap. *)
Lemma claim_C7_counterexample : ~ claim_C7_as_written.
Proof.
  intro H.
  destruct (H two_rows (T "SELECT id FROM t") (-1)%Z [T "id"] [[(T "id", DInt 1)]])
    as [Hle _].
  - vm_compute. reflexivity.
  - cbn in Hle. lia.
Qed.

(** Claim C7 (amended): the columns are the engine's result keys, in their
    order, and every returned row is [dict(zip(columns, r))] for a kept row
    [r].  For a cap [N >= 0] the kept rows are the first [min N total]
    fetched rows, so at most [N] come back; in particular a cap of 5000 on
    6000 fetched rows gives exactly 5000 rows.  A negative cap [N] keeps the
    fetched rows minus the last [-N] of them (Python slicing). *)
Theorem execute_read_query_cap db_query sql (N : Z) columns fetched :
  db_query sql = Ok (columns, fetched) ->
  exists kept rows,
    execute_read_query db_query sql N = Ok (columns, rows)
    /\ rows = map (fun r => dict_of_pairs (combine columns r)) kept
    /\ ((0 <= N)%Z -> kept = firstn (Z.to_nat N) fetched)
    /\ ((N < 0)%Z -> exists dropped, fetched = kept ++ dropped
                      /\ length dropped = Nat.min (Z.to_nat (- N)) (length fetched))
    /\ length rows = (if (0 <=? N)%Z then Nat.min (Z.to_nat N) (length fetched)
                      else length fetched - Z.to_nat (- N))
    /\ ((0 <= N)%Z -> (Z.of_nat (length rows) <= N)%Z)
    /\ (N = 5000%Z -> length fetched = 6000 -> length rows = 5000).
Proof.
  intro H. unfold execute_read_query. rewrite H.
  exists (py_slice_upto fetched N). eexists. split; [reflexivity|].
  split; [reflexivity|].
  split; [|split].
  - intro HN. unfold py_slice_upto. apply Z.leb_le in HN. rewrite HN. reflexivity.
  - intro HN. exists (skipn (length fetched - Z.to_nat (- N)) fetched).
    unfold py_slice_upto.
    destruct (Z.leb_spec 0 N) as [HN'|_]; [lia|].
    split; [symmetry; apply firstn_skipn|].
    rewrite length_skipn. lia.
  - rewrite length_map, py_slice_upto_length.
    split; [reflexivity|]. split.
    + intro HN. apply Z.leb_le in HN. rewrite HN. lia.
    + intros -> ->. reflexivity.
Qed.

Lemma execute_read_query_cap_witness :
  exists kept rows,
    execute_read_query two_rows (T "SELECT id FROM t") 1%Z = Ok ([T "id"], rows)
    /\ rows = map (fun r => dict_of_pairs (combine [T "id"] r)) kept
    /\ ((0 <= 1)%Z -> kept = firstn (Z.to_nat 1) [[DInt 1]; [DInt 2]])
    /\ ((1 < 0)%Z -> exists dropped, [[DInt 1]; [DInt 2]] = kept ++ dropped
                      /\ length dropped = Nat.min (Z.to_nat (- 1)) (length [[DInt 1]; [DInt 2]]))
    /\ length rows = 1
    /\ ((0 <= 1)%Z -> (Z.of_nat (length rows) <= 1)%Z)
    /\ (1%Z = 5000%Z -> length [[DInt 1]; [DInt 2]] = 6000 -> length rows = 5000).
Proof.
  apply (execute_read_query_cap two_rows (T "SELECT id FROM t") 1%Z [T "id"] [[DInt 1]; [DInt 2]]).
  reflexivity.
Defined.

(* ----------------------------------------------------------------- *)
(** ** The schema builder: C8 and C10 *)

Section SchemaFacts.
Variable E : env.

Lemma or_default_nonempty relevant default :
  relevant <> [] -> or_default (Some relevant) default = relevant.
Proof. destruct relevant; [congruence|reflexivity]. Qed.

Lemma or_default_empty default : or_default (Some []) default = or_default None default.
Proof. reflexivity. Qed.

Lemma kdmp_loop_ok tables todo ds lg :
  kdmp_loop E tables todo = (Ok ds, lg) ->
  (forall d, In d ds -> In (d_table d) todo /\ is_some (table_lookup tables (d_table d)) = true)
  /\ (NoDup todo -> NoDup (map d_table ds))
  /\ (forall t, In t todo -> table_lookup tables t = None -> In (WarnMissing t) lg).
Proof.
  revert ds lg. induction todo as [|t rest IH]; intros ds lg H; cbn in H.
  - inversion H; subst. cbn. repeat split; intros; try tauto; constructor.
  - destruct (table_lookup tables t) as [meta|] eqn:Hl.
    + destruct (map_result col_desc (tm_columns meta)); [|discriminate].
      assert (Hs : exists smp lg0, (match samples_of E t with
                                    | Ok smp => (smp, []) | Raise _ => ([], [WarnSamples t]) end)
                                   = (smp, lg0)) by (destruct (samples_of E t); eauto).
      destruct Hs as (smp & lg0 & Hs). rewrite Hs in H.
      destruct (kdmp_loop E tables rest) as [[ds'|e'] lg'] eqn:Hr; inversion H; subst.
      destruct (IH _ _ eq_refl) as (H1 & H2 & H3).
      split; [|split].
      * intros d [<-|Hd]; cbn; [rewrite Hl; auto|].
        destruct (H1 d Hd); auto.
      * intro Hnd. inversion Hnd; subst. cbn. constructor; [|auto].
        intro Hin. apply in_map_iff in Hin as (d & Hd1 & Hd2).
        destruct (H1 d Hd2). subst. contradiction.
      * intros t' [<-|Ht] Hn; [congruence|]. apply in_or_app. right. auto.
    + destruct (kdmp_loop E tables rest) as [r lg'] eqn:Hr. inversion H; subst.
      destruct (IH _ _ eq_refl) as (H1 & H2 & H3).
      split; [|split].
      * intros d Hd. destruct (H1 d Hd). split; [right|]; assumption.
      * intro Hnd. inversion Hnd. auto.
      * intros t' [<-|Ht] Hn; [left; reflexivity|right; auto].
Qed.

Lemma map_result_ok {A B} (f : A -> result B) (l : list A) :
  (forall x, In x l -> exists y, f x = Ok y) -> exists ys, map_result f l = Ok ys.
Proof.
  induction l as [|x r IH]; intro H; cbn; [eauto|].
  destruct (H x (or_introl eq_refl)) as [y ->].
  destruct IH as [ys ->]; [intros; apply H; right; assumption|]. eauto.
Qed.

Lemma table_lookup_in tables t meta :
  table_lookup tables t = Some meta -> exists k, In (k, meta) tables.
Proof.
  unfold table_lookup. destruct (find _ tables) as [[k m]|] eqn:Hf; cbn; [|discriminate].
  intro H. inversion H; subst. apply find_some in Hf as [Hin _]. eauto.
Qed.

Lemma well_formed_columns tables t meta :
  well_formed tables = true -> table_lookup tables t = Some meta ->
  exists cols, map_result col_desc (tm_columns meta) = Ok cols.
Proof.
  intros Hwf Hl. destruct (table_lookup_in _ _ _ Hl) as [k Hin].
  unfold well_formed in Hwf. rewrite forallb_forall in Hwf.
  specialize (Hwf _ Hin). cbn in Hwf. rewrite forallb_forall in Hwf.
  apply map_result_ok. intros c Hc. specialize (Hwf c Hc).
  unfold col_desc. destruct (cm_name c), (cm_type c); cbn in Hwf; try discriminate. eauto.
Qed.

Lemma kdmp_loop_wf tables todo :
  well_formed tables = true ->
  exists ds lg, kdmp_loop E tables todo = (Ok ds, lg)
    /\ map d_table ds = filter (fun t => is_some (table_lookup tables t)) todo.
Proof.
  intro Hwf. induction todo as [|t rest IH]; cbn; [eauto|].
  destruct IH as (ds & lg & Hr & Hm).
  destruct (table_lookup tables t) as [meta|] eqn:Hl; cbn.
  - destruct (well_formed_columns _ _ _ Hwf Hl) as [cols ->].
    destruct (samples_of E t); rewrite Hr; do 2 eexists; split; try reflexivity;
      cbn; f_equal; exact Hm.
  - rewrite Hr. eauto.
Qed.

Lemma db_loop_spec todo ds lg :
  db_loop E todo = (ds, lg) ->
  (forall d, In d ds -> In (d_table d) todo)
  /\ (NoDup todo -> NoDup (map d_table ds))
  /\ (forall t, In t todo -> In t (map d_table ds) \/ In (DescribeFailed t) lg)
  /\ (forall t, ~ In (WarnMissing t) lg).
Proof.
  revert ds lg. induction todo as [|t rest IH]; intros ds lg H; cbn in H.
  - inversion H; subst. cbn. split; [tauto|]. split; [intros; constructor|]. split; tauto.
  - destruct (db_loop E rest) as [ds' lg'] eqn:Hr.
    destruct (IH _ _ eq_refl) as (H1 & H2 & H3 & H4).
    assert (Hnd : NoDup (t :: rest) -> ~ In t (map d_table ds')).
    { intros Hnd Hin. inversion Hnd; subst. apply in_map_iff in Hin as (d & Hd1 & Hd2).
      apply H1 in Hd2. subst. contradiction. }
    destruct (db_columns E t) as [cols|e];
      [destruct (samples_of E t) as [smp|e]|]; inversion H; subst;
      (split; [|split; [|split]]).
    + intros d [<-|Hd]; [left; reflexivity|right; auto].
    + intro Hn. cbn. constructor; [auto|]. apply H2. inversion Hn; assumption.
    + intros t' [<-|Ht]; [left; left; reflexivity|]. destruct (H3 t' Ht); [left; right|right]; assumption.
    + assumption.
    + intros d Hd. right. auto.
    + intro Hn. apply H2. inversion Hn; assumption.
    + intros t' [<-|Ht]; [right; left; reflexivity|]. destruct (H3 t' Ht); [left|right; right]; assumption.
    + intros t' [Ht|Ht]; [discriminate|exact (H4 t' Ht)].
    + intros d Hd. right. auto.
    + intro Hn. apply H2. inversion Hn; assumption.
    + intros t' [<-|Ht]; [right; left; reflexivity|]. destruct (H3 t' Ht); [left|right; right]; assumption.
    + intros t' [Ht|Ht]; [discriminate|exact (H4 t' Ht)].
Qed.

Lemma from_db_no_warn relevant t : ~ In (WarnMissing t) (snd (build_schema_from_db E relevant)).
Proof.
  unfold build_schema_from_db.
  destruct (db_tables E) as [all|e]; [|cbn; tauto].
  destruct (db_connect E) as [u|e]; [|cbn; tauto].
  destruct (db_loop E _) as [ds lg] eqn:H. cbn.
  exact (proj2 (proj2 (proj2 (db_loop_spec _ _ _ H))) t).
Qed.

Lemma from_db_ok relevant ds lg :
  build_schema_from_db E relevant = (Ok ds, lg) ->
  exists all, db_tables E = Ok all
    /\ (forall d, In d ds -> In (d_table d) (or_default relevant all) /\ mem (d_table d) all = true)
    /\ (NoDup (or_default relevant all) -> NoDup (map d_table ds))
    /\ (forall t, In t (or_default relevant all) -> mem t all = true ->
                  In t (map d_table ds) \/ In (DescribeFailed t) lg).
Proof.
  unfold build_schema_from_db.
  destruct (db_tables E) as [all|e]; [|discriminate].
  destruct (db_connect E) as [u|e]; [|discriminate].
  destruct (db_loop E _) as [ds' lg'] eqn:H. intro Heq. inversion Heq; subst.
  destruct (db_loop_spec _ _ _ H) as (H1 & H2 & H3 & _).
  exists all. split; [reflexivity|]. split; [|split].
  - intros d Hd. apply H1, filter_In in Hd. exact Hd.
  - intro Hn. apply H2, NoDup_filter, Hn.
  - intros t Ht Hm. apply H3, filter_In. auto.
Qed.

Lemma summary_cases relevant ds logs :
  build_schema_summary E relevant = (Ok ds, logs) ->
  (exists tables, kdmp E = Tables tables
                  /\ kdmp_loop E tables (or_default relevant (map fst tables)) = (Ok ds, logs))
  \/ (exists lg0 lg', build_schema_from_db E relevant = (Ok ds, lg')
                      /\ logs = lg0 ++ lg' /\ (kdmp E = NoFile -> lg0 = [UsingDb])).
Proof.
  unfold build_schema_summary. destruct (kdmp E) as [| |tables] eqn:Hk.
  - destruct (build_schema_from_db E relevant) as [r lg'] eqn:Hd. intro H. inversion H; subst.
    right. exists [UsingDb], lg'. auto.
  - destruct (build_schema_from_db E relevant) as [r lg'] eqn:Hd. intro H. inversion H; subst.
    right. exists [LoadFailed; UsingDb], lg'. split; [reflexivity|]. split; [reflexivity|discriminate].
  - destruct (kdmp_loop E tables _) as [[ds'|e] lg] eqn:Hl.
    + intro H. inversion H; subst. left. eauto.
    + destruct (build_schema_from_db E relevant) as [r lg'] eqn:Hd. intro H. inversion H; subst.
      right. exists (lg ++ [LoadFailed; UsingDb]), lg'.
      split; [reflexivity|]. split; [rewrite <- app_assoc; reflexivity|discriminate].
Qed.

Lemma str_eqb_refl (a : str) : str_eqb a a = true.
Proof. unfold str_eqb. destruct (list_eq_dec ascii_dec a a); congruence. Qed.

Lemma mem_In t l : In t l -> mem t l = true.
Proof. intro H. unfold mem. apply existsb_exists. exists t. split; [exact H|apply str_eqb_refl]. Qed.

Lemma table_lookup_found tables k :
  In k (map fst tables) -> is_some (table_lookup tables k) = true.
Proof.
  unfold table_lookup. induction tables as [|[k' m] r IH]; cbn; [tauto|].
  destruct (str_eqb k k') eqn:He; [reflexivity|].
  intros [<-|Hin]; [rewrite str_eqb_refl in He; discriminate|auto].
Qed.

Lemma filter_all_true {A} (f : A -> bool) (l : list A) :
  (forall x, In x l -> f x = true) -> filter f l = l.
Proof.
  induction l as [|x r IH]; intro H; cbn; [reflexivity|].
  rewrite (H x (or_introl eq_refl)). f_equal. apply IH. intros; apply H; right; assumption.
Qed.

Lemma db_loop_logs todo ds lg :
  db_loop E todo = (ds, lg) -> forall l, In l lg -> exists u, l = DescribeFailed u /\ In u todo.
Proof.
  revert ds lg. induction todo as [|t rest IH]; intros ds lg H l Hl; cbn in H.
  - inversion H; subst. destruct Hl.
  - destruct (db_loop E rest) as [ds' lg'] eqn:Hr.
    destruct (db_columns E t) as [cols|e];
      [destruct (samples_of E t) as [smp|e]|]; inversion H; subst.
    + destruct (IH _ _ eq_refl l Hl) as (u & -> & Hu). exists u. split; [reflexivity|right; exact Hu].
    + destruct Hl as [<-|Hl]; [exists t; split; [reflexivity|left; reflexivity]|].
      destruct (IH _ _ eq_refl l Hl) as (u & -> & Hu). exists u. split; [reflexivity|right; exact Hu].
    + destruct Hl as [<-|Hl]; [exists t; split; [reflexivity|left; reflexivity]|].
      destruct (IH _ _ eq_refl l Hl) as (u & -> & Hu). exists u. split; [reflexivity|right; exact Hu].
Qed.

Lemma from_db_logs relevant r lg l :
  build_schema_from_db E relevant = (r, lg) -> In l lg ->
  exists u all, db_tables E = Ok all /\ l = DescribeFailed u /\ mem u all = true.
Proof.
  unfold build_schema_from_db.
  destruct (db_tables E) as [all|e]; [|intro H; inversion H; subst; intros []].
  destruct (db_connect E) as [c|e]; [|intro H; inversion H; subst; intros []].
  destruct (db_loop E _) as [ds' lg'] eqn:H. intros Heq Hl. inversion Heq; subst.
  destruct (db_loop_logs _ _ _ H l Hl) as (u & -> & Hu).
  apply filter_In in Hu. exists u, all. split; [reflexivity|]. split; [reflexivity|]. exact (proj2 Hu).
Qed.

Lemma db_loop_sample_drop todo ds lg t e :
  db_samples E t (SAMPLE_ROWS E) = Raise e -> db_loop E todo = (ds, lg) ->
  ~ In t (map d_table ds) /\ (In t todo -> In (DescribeFailed t) lg).
Proof.
  intros Hs. assert (Hso : samples_of E t = Raise e) by (unfold samples_of; rewrite Hs; reflexivity).
  revert ds lg. induction todo as [|t' rest IH]; intros ds lg H; cbn in H.
  - inversion H; subst. cbn. tauto.
  - destruct (db_loop E rest) as [ds' lg'] eqn:Hr.
    destruct (IH _ _ eq_refl) as [IH1 IH2].
    destruct (db_columns E t') as [cols|e'];
      [destruct (samples_of E t') as [smp|e'] eqn:Hst|]; inversion H; subst.
    + assert (Hne : t' <> t) by (intros ->; congruence).
      cbn. split.
      * intros [Heq|Hin]; [congruence|exact (IH1 Hin)].
      * intros [Heq|Hin]; [congruence|exact (IH2 Hin)].
    + split; [exact IH1|]. intros [<-|Hin]; [left; reflexivity|right; exact (IH2 Hin)].
    + split; [exact IH1|]. intros [<-|Hin]; [left; reflexivity|right; exact (IH2 Hin)].
Qed.

Lemma from_db_sample_drop relevant ds lg t e :
  db_samples E t (SAMPLE_ROWS E) = Raise e -> build_schema_from_db E relevant = (Ok ds, lg) ->
  ~ In t (map d_table ds)
  /\ (forall all, db_tables E = Ok all -> In t (or_default relevant all) -> mem t all = true ->
                  In (DescribeFailed t) lg).
Proof.
  intro Hs. unfold build_schema_from_db.
  destruct (db_tables E) as [all|e']; [|discriminate].
  destruct (db_connect E) as [c|e']; [|discriminate].
  destruct (db_loop E _) as [ds' lg'] eqn:H. intro Heq. inversion Heq; subst.
  destruct (db_loop_sample_drop _ _ _ _ _ Hs H) as [H1 H2].
  split; [exact H1|]. intros all' Hall Ht Hm. inversion Hall; subst all'.
  apply H2, filter_In. auto.
Qed.

End SchemaFacts.

(** Counterexample to C8: without kdmp-tables.json, requesting [nope] from
    a database that only has [cooperatives] gives no descriptor, but no
    warning names [nope] either: the live-database path drops it silently. *)
Lemma claim_C8_counterexample : ~ claim_C8_as_written.
Proof.
  intro H.
  destruct (H (db_env true) [T "nope"] [] [UsingDb]) as (_ & _ & H3).
  - discriminate.
  - repeat constructor. intros [].
  - vm_compute. reflexivity.
  - destruct (H3 (T "nope") (or_introl eq_refl)) as [_ Hw].
    + vm_compute. intros [Hc|[]]. discriminate.
    + destruct Hw as [Hw|[]]. discriminate.
Qed.

(** Claim C8 (code bug): for a non-empty list of distinct names, every
    descriptor is for a requested name known to kdmp-tables.json or to the
    database, and no name gets two.  When kdmp-tables.json is used (it is
    loadable and each column entry has a name and a type), a requested name
    it lacks gets no descriptor and a [not found] warning.  When the file is
    absent or unreadable, the live-database path gives an unknown name no
    descriptor either, but no log entry names it: the only entries are the
    fallback notices and [Failed to describe] for other, known tables. *)
Theorem build_schema_summary_requested (E : env) (relevant : list str) ds logs :
  relevant <> [] -> NoDup relevant ->
  build_schema_summary E (Some relevant) = (Ok ds, logs) ->
  (forall d, In d ds -> In (d_table d) relevant /\ known_table E (d_table d) = true)
  /\ NoDup (map d_table ds)
  /\ (forall tables, kdmp E = Tables tables -> well_formed tables = true ->
        forall t, In t relevant -> table_lookup tables t = None ->
          ~ In t (map d_table ds) /\ In (WarnMissing t) logs)
  /\ (kdmp E = NoFile \/ kdmp E = Unreadable ->
        forall t, In t relevant -> known_table E t = false ->
          ~ In t (map d_table ds)
          /\ (forall l, In l logs ->
                l = UsingDb \/ l = LoadFailed \/ exists u, l = DescribeFailed u /\ u <> t)).
Proof.
  intros Hne Hnd H.
  assert (Hwf : forall tables, kdmp E = Tables tables -> well_formed tables = true ->
            forall t, In t relevant -> table_lookup tables t = None ->
              ~ In t (map d_table ds) /\ In (WarnMissing t) logs).
  { intros tables Hk Hw t Ht Hn.
    destruct (kdmp_loop_wf E tables (or_default (Some relevant) (map fst tables)) Hw)
      as (ds' & lg & Hl & _).
    unfold build_schema_summary in H. rewrite Hk, Hl in H. inversion H; subst.
    rewrite or_default_nonempty in Hl by exact Hne.
    destruct (kdmp_loop_ok E _ _ _ _ Hl) as (H1 & _ & H3).
    split; [|exact (H3 t Ht Hn)].
    intro Hin. apply in_map_iff in Hin as (d & <- & Hd).
    destruct (H1 d Hd) as [_ Hs]. rewrite Hn in Hs. discriminate. }
  assert (Hdb : kdmp E = NoFile \/ kdmp E = Unreadable ->
            forall t, In t relevant -> known_table E t = false ->
              ~ In t (map d_table ds)
              /\ (forall l, In l logs ->
                    l = UsingDb \/ l = LoadFailed \/ exists u, l = DescribeFailed u /\ u <> t)).
  { intros Hk t _ Hkn.
    assert (Hd : exists lg0 lg', build_schema_from_db E (Some relevant) = (Ok ds, lg')
                   /\ logs = lg0 ++ lg' /\ (forall l, In l lg0 -> l = UsingDb \/ l = LoadFailed)).
    { unfold build_schema_summary in H.
      destruct Hk as [Hk|Hk]; rewrite Hk in H;
        destruct (build_schema_from_db E (Some relevant)) as [r lg'] eqn:Hd; inversion H; subst.
      - exists [UsingDb], lg'. split; [reflexivity|]. split; [reflexivity|].
        intros l [<-|[]]. left. reflexivity.
      - exists [LoadFailed; UsingDb], lg'. split; [reflexivity|]. split; [reflexivity|].
        intros l [<-|[<-|[]]]; [right|left]; reflexivity. }
    destruct Hd as (lg0 & lg' & Hd & -> & H0).
    destruct (from_db_ok E _ _ _ Hd) as (all & Hall & H1 & _ & _).
    assert (Hm : mem t all = false).
    { unfold known_table in Hkn. destruct Hk as [Hk|Hk]; rewrite Hk, Hall in Hkn; exact Hkn. }
    split.
    - intro Hin. apply in_map_iff in Hin as (d & Hdt & Hdd).
      destruct (H1 d Hdd) as [_ Hm']. rewrite Hdt, Hm in Hm'. discriminate.
    - intros l Hl. apply in_app_or in Hl as [Hl|Hl].
      + destruct (H0 l Hl) as [Hu|Hu]; rewrite Hu; [left|right; left]; reflexivity.
      + right; right. destruct (from_db_logs E _ _ _ _ Hd Hl) as (u & all' & Hall' & -> & Hu).
        exists u. split; [reflexivity|]. intros ->.
        rewrite Hall in Hall'. inversion Hall'; subst all'. congruence. }
  destruct (summary_cases E _ _ _ H) as [(tables & Hk & Hl) | (lg0 & lg' & Hd & -> & Hnf)].
  - rewrite or_default_nonempty in Hl by exact Hne.
    destruct (kdmp_loop_ok E _ _ _ _ Hl) as (H1 & H2 & _).
    split; [|split; [exact (H2 Hnd)|split; [exact Hwf|exact Hdb]]].
    intros d Hd. destruct (H1 d Hd) as [Hr Hs]. split; [exact Hr|].
    unfold known_table. rewrite Hk, Hs. reflexivity.
  - destruct (from_db_ok E _ _ _ Hd) as (all & Hall & H1 & H2 & _).
    rewrite or_default_nonempty in H1, H2 by exact Hne.
    split; [|split; [exact (H2 Hnd)|split; [exact Hwf|exact Hdb]]].
    intros d Hd'. destruct (H1 d Hd') as [Hr Hm]. split; [exact Hr|].
    unfold known_table. rewrite Hall, Hm. apply orb_true_r.
Qed.

(** Without kdmp-tables.json, requesting [nope] and [cooperatives] from a
    database that only has [cooperatives]: [nope] is dropped and no log entry
    names it. *)
Lemma build_schema_summary_requested_witness :
  ~ In (T "nope") (map d_table (match fst (build_schema_summary (db_env true)
                                             (Some [T "nope"; T "cooperatives"])) with
                                 | Ok ds => ds | Raise _ => [] end))
  /\ (forall l, In l (snd (build_schema_summary (db_env true) (Some [T "nope"; T "cooperatives"]))) ->
        l = UsingDb \/ l = LoadFailed \/ exists u, l = DescribeFailed u /\ u <> T "nope").
Proof.
  refine (proj2 (proj2 (proj2 (build_schema_summary_requested (db_env true)
            [T "nope"; T "cooperatives"]
            (match fst (build_schema_summary (db_env true) (Some [T "nope"; T "cooperatives"])) with
             | Ok ds => ds | Raise _ => [] end)
            (snd (build_schema_summary (db_env true) (Some [T "nope"; T "cooperatives"])))
            _ _ _))) _ (T "nope") _ _).
  - discriminate.
  - constructor; [intros [H|[]]; discriminate|constructor; [intros []|constructor]].
  - vm_compute. reflexivity.
  - left. reflexivity.
  - left. reflexivity.
  - vm_compute. reflexivity.
Defined.

(** Counterexample to C10: without kdmp-tables.json, when fetching the
    sample rows of [cooperatives] fails, the table is skipped and the
    context built for the empty list is empty although the database has
    it. *)
Lemma claim_C10_counterexample : ~ claim_C10_as_written.
Proof.
  intro H. destruct (H (samples_env NoFile (Raise (DbError (T "timeout"))))) as [_ H2].
  specialize (H2 [] [UsingDb; DescribeFailed (T "cooperatives")]).
  refine (match H2 _ (T "cooperatives") _ with end).
  - vm_compute. reflexivity.
  - left. reflexivity.
Qed.

(** Claim C10 (code bug): the empty list is treated exactly as no argument.
    When kdmp-tables.json is used (loadable, each column entry with a name
    and a type), the context then has one descriptor per table of the file,
    in file order, whatever the sample fetches do.  When the file is absent
    or unreadable, every table of the database gets a descriptor unless
    describing it failed, which is logged; in particular a table whose
    [fetch_sample_rows] raises is left out of the context instead of being
    kept with no sample rows. *)
Theorem build_schema_summary_empty_list (E : env) :
  build_schema_summary E (Some []) = build_schema_summary E None
  /\ (forall tables, kdmp E = Tables tables -> well_formed tables = true ->
        exists ds logs, build_schema_summary E None = (Ok ds, logs)
                        /\ map d_table ds = map fst tables)
  /\ (forall ds logs all, kdmp E = NoFile \/ kdmp E = Unreadable ->
        build_schema_summary E None = (Ok ds, logs) -> db_tables E = Ok all ->
        forall t, In t all -> In t (map d_table ds) \/ In (DescribeFailed t) logs)
  /\ (forall ds logs all t e, kdmp E = NoFile \/ kdmp E = Unreadable ->
        build_schema_summary E None = (Ok ds, logs) -> db_tables E = Ok all -> In t all ->
        db_samples E t (SAMPLE_ROWS E) = Raise e ->
        ~ In t (map d_table ds) /\ In (DescribeFailed t) logs).
Proof.
  assert (Hdb : forall ds logs, kdmp E = NoFile \/ kdmp E = Unreadable ->
            build_schema_summary E None = (Ok ds, logs) ->
            exists lg0 lg', build_schema_from_db E None = (Ok ds, lg') /\ logs = lg0 ++ lg').
  { intros ds logs Hk H.
    destruct (summary_cases E _ _ _ H) as [(tables & Hk' & _) | (lg0 & lg' & Hd & -> & _)].
    - rewrite Hk' in Hk. destruct Hk; discriminate.
    - eauto. }
  split; [reflexivity|]. split; [|split].
  - intros tables Hk Hw.
    destruct (kdmp_loop_wf E tables (map fst tables) Hw) as (ds & lg & Hl & Hm).
    exists ds, lg. unfold build_schema_summary. rewrite Hk. cbn [or_default]. rewrite Hl.
    split; [reflexivity|]. rewrite Hm. apply filter_all_true. apply table_lookup_found.
  - intros ds logs all Hk H Hall t Ht.
    destruct (Hdb ds logs Hk H) as (lg0 & lg' & Hd & ->).
    destruct (from_db_ok E _ _ _ Hd) as (all' & Hall' & _ & _ & H3).
    rewrite Hall in Hall'. inversion Hall'; subst all'. cbn [or_default] in H3.
    destruct (H3 t Ht (mem_In _ _ Ht)) as [Hin|Hin]; [left; exact Hin|].
    right. apply in_or_app. right. exact Hin.
  - intros ds logs all t e Hk H Hall Ht Hs.
    destruct (Hdb ds logs Hk H) as (lg0 & lg' & Hd & ->).
    destruct (from_db_sample_drop E _ _ _ _ _ Hs Hd) as [H1 H2].
    split; [exact H1|]. apply in_or_app. right.
    apply (H2 all Hall); [exact Ht|exact (mem_In _ _ Ht)].
Qed.

(** With kdmp-tables.json the table stays; without it, a failing sample
    fetch drops [cooperatives]. *)
Lemma build_schema_summary_empty_list_witness :
  (exists ds logs, build_schema_summary (demo_env []) None = (Ok ds, logs)
                   /\ map d_table ds = map fst kdmp_cooperatives)
  /\ (~ In (T "cooperatives") (map d_table [])
      /\ In (DescribeFailed (T "cooperatives")) [UsingDb; DescribeFailed (T "cooperatives")]).
Proof.
  split.
  - apply (proj1 (proj2 (build_schema_summary_empty_list (demo_env []))) kdmp_cooperatives);
      vm_compute; reflexivity.
  - apply (proj2 (proj2 (proj2 (build_schema_summary_empty_list
             (samples_env NoFile (Raise (DbError (T "timeout")))))))
             [] [UsingDb; DescribeFailed (T "cooperatives")] [T "cooperatives"]
             (T "cooperatives") (DbError (T "timeout"))).
    + left. reflexivity.
    + vm_compute. reflexivity.
    + reflexivity.
    + left. reflexivity.
    + reflexivity.
Defined.

(* ================================================================= *)
(** * Further properties of the code *)

(* ----------------------------------------------------------------- *)
(** ** Substring search and the table-name extraction *)

Lemma any_split_true (f : str -> str -> bool) (s : str) :
  any_split f s = true <-> exists p q, s = p ++ q /\ f p q = true.
Proof.
  revert f. induction s as [|c r IH]; intro f; cbn.
  - rewrite orb_false_r. split.
    + intro H. exists [], []. auto.
    + intros (p & q & Hs & Hf). destruct p, q; try discriminate. exact Hf.
  - rewrite orb_true_iff, IH. split.
    + intros [H|(p & q & -> & Hf)].
      * exists [], (c :: r). auto.
      * exists (c :: p), q. auto.
    + intros ([|c' p] & q & Hs & Hf).
      * left. cbn in Hs. subst. exact Hf.
      * right. inversion Hs; subst. eauto.
Qed.

Lemma prefix_true (t q : str) : prefix t q = true <-> exists r, q = t ++ r.
Proof.
  revert q. induction t as [|a t IH]; intros [|c q]; cbn.
  - split; eauto.
  - split; eauto.
  - split; [discriminate|intros (r & Hr); discriminate].
  - rewrite andb_true_iff, IH. split.
    + intros [Ha (r & ->)]. apply Ascii.eqb_eq in Ha. subst. eauto.
    + intros (r & Hr). inversion Hr; subst. split; [apply Ascii.eqb_refl|eauto].
Qed.

Lemma contains_true (t s : str) : contains t s = true <-> exists p r, s = p ++ t ++ r.
Proof.
  unfold contains. rewrite any_split_true. split.
  - intros (p & q & -> & Hq). apply prefix_true in Hq as (r & ->). eauto.
  - intros (p & r & ->). exists p, (t ++ r). split; [reflexivity|]. apply prefix_true. eauto.
Qed.

Lemma contains_trans (t u s : str) :
  contains t u = true -> contains u s = true -> contains t s = true.
Proof.
  rewrite !contains_true. intros (p1 & r1 & ->) (p2 & r2 & ->).
  exists (p2 ++ p1), (r1 ++ r2). rewrite <- !app_assoc. reflexivity.
Qed.

Lemma mem_true t l : mem t l = true <-> In t l.
Proof.
  split; [|apply mem_In]. unfold mem. rewrite existsb_exists.
  intros (x & Hx & He). unfold str_eqb in He.
  destruct (list_eq_dec ascii_dec t x); [subst; exact Hx|discriminate].
Qed.

Lemma add_missing_spec gs acc :
  incl acc (add_missing acc gs)
  /\ (forall g, In g gs -> In g (add_missing acc gs))
  /\ (forall x, In x (add_missing acc gs) -> In x acc \/ In x gs)
  /\ (NoDup acc -> NoDup (add_missing acc gs)).
Proof.
  unfold add_missing. revert acc. induction gs as [|g gs IH]; intro acc; cbn.
  - split; [apply incl_refl|]. split; [tauto|]. split; auto.
  - destruct (mem g acc) eqn:Hm.
    + destruct (IH acc) as (H1 & H2 & H3 & H4).
      split; [exact H1|]. split; [|split; [|exact H4]].
      * intros g' [<-|Hg]; [apply H1, mem_true, Hm|auto].
      * intros x Hx. destruct (H3 x Hx); auto.
    + destruct (IH (acc ++ [g])) as (H1 & H2 & H3 & H4).
      split; [|split; [|split]].
      * intros x Hx. apply H1, in_or_app. auto.
      * intros g' [<-|Hg]; [apply H1, in_or_app; right; left; reflexivity|auto].
      * intros x Hx. destruct (H3 x Hx) as [Ha|Hg]; [|auto].
        apply in_app_or in Ha as [Ha|[<-|[]]]; auto.
      * intro Hnd. apply H4. apply NoDup_app; [exact Hnd|repeat constructor; intros []|].
        intros x Hx [<-|[]]. apply mem_true in Hx. congruence.
Qed.

Lemma extract_table_names_eq response :
  extract_table_names response =
  let found := filter (fun table => contains table (lower_str response)) common_tables in
  if existsb (fun geo_table => mem geo_table found) (map T ["villages"; "village_potentials"]%string)
  then add_missing found geographical_tables else found.
Proof. reflexivity. Qed.

Lemma common_tables_NoDup : NoDup common_tables.
Proof.
  unfold common_tables. cbn -[T].
  repeat constructor; cbn; intro H; repeat destruct H as [H|H]; try discriminate; exact H.
Qed.

Lemma geographical_in_common : incl geographical_tables common_tables.
Proof. intros x Hx. cbn in Hx |- *. tauto. Qed.

(** [extract_table_names] only ever returns names of its fixed list of
    common tables, each at most once. *)
Theorem extract_table_names_known (response : str) :
  incl (extract_table_names response) common_tables
  /\ NoDup (extract_table_names response).
Proof.
  rewrite extract_table_names_eq. cbv zeta.
  set (found := filter _ common_tables).
  assert (Hf : incl found common_tables) by (intros x Hx; apply filter_In in Hx; tauto).
  assert (Hn : NoDup found) by (apply NoDup_filter, common_tables_NoDup).
  destruct (existsb _ _).
  - destruct (add_missing_spec geographical_tables found) as (_ & _ & H3 & H4).
    split; [|exact (H4 Hn)].
    intros x Hx. destruct (H3 x Hx); [apply Hf|apply geographical_in_common]; assumption.
  - auto.
Qed.

(** When the answer mentions [villages] or [village_potentials] (in any
    case), all five geographical tables are returned. *)
Theorem extract_table_names_geographical (response : str) :
  contains (T "villages") (lower_str response) = true
  \/ contains (T "village_potentials") (lower_str response) = true ->
  incl geographical_tables (extract_table_names response).
Proof.
  intro H. rewrite extract_table_names_eq. cbv zeta.
  set (found := filter _ common_tables).
  assert (Hex : existsb (fun geo_table => mem geo_table found)
                  (map T ["villages"; "village_potentials"]%string) = true).
  { apply existsb_exists. destruct H as [H|H]; [exists (T "villages")|exists (T "village_potentials")];
      (split; [cbn; tauto|]); apply mem_true, filter_In; (split; [cbn; tauto|exact H]). }
  rewrite Hex. intros g Hg. exact (proj1 (proj2 (add_missing_spec _ _)) g Hg).
Qed.

Lemma extract_table_names_found (response t : str) :
  In t common_tables -> contains t (lower_str response) = true ->
  In t (extract_table_names response).
Proof.
  intros Hc Ht. rewrite extract_table_names_eq. cbv zeta.
  assert (Hin : In t (filter (fun table => contains table (lower_str response)) common_tables))
    by (apply filter_In; auto).
  destruct (existsb _ _); [apply (proj1 (add_missing_spec _ _))|]; exact Hin.
Qed.

(** The match is a substring test: an answer naming [subdistricts] also
    yields [districts]. *)
Theorem extract_table_names_substring (response : str) :
  contains (T "subdistricts") (lower_str response) = true ->
  In (T "districts") (extract_table_names response)
  /\ In (T "subdistricts") (extract_table_names response).
Proof.
  intro H. split; apply extract_table_names_found; try (cbn; tauto).
  apply (contains_trans _ (T "subdistricts")); [reflexivity|exact H].
Qed.

Lemma extract_table_names_substring_witness :
  In (T "districts") (extract_table_names (T "Gunakan tabel SUBDISTRICTS."))
  /\ In (T "subdistricts") (extract_table_names (T "Gunakan tabel SUBDISTRICTS.")).
Proof. apply extract_table_names_substring. vm_compute. reflexivity. Defined.

Lemma extract_table_names_geographical_witness :
  incl geographical_tables (extract_table_names (T "lihat tabel Villages")).
Proof. apply extract_table_names_geographical. left. vm_compute. reflexivity. Defined.

(* ----------------------------------------------------------------- *)
(** ** The fallback tables and [search_relevant_tables] *)

(** [get_fallback_tables] always gives a non-empty list drawn from six fixed
    names; a question mentioning [koperasi] (any case) gets cooperatives and
    provinces. *)
Theorem get_fallback_tables_shape (question : str) :
  get_fallback_tables question <> []
  /\ incl (get_fallback_tables question)
          (map T ["cooperatives"; "provinces"; "districts"; "users"; "user_roles"; "news"]%string)
  /\ (contains (T "koperasi") (lower_str question) = true ->
      get_fallback_tables question = map T ["cooperatives"; "provinces"]%string).
Proof.
  unfold get_fallback_tables. cbv zeta. split; [|split].
  - repeat (destruct (existsb _ _)); discriminate.
  - repeat (destruct (existsb _ _)); intros x Hx; cbn in Hx |- *; tauto.
  - intro H. cbn [map existsb]. rewrite H. reflexivity.
Qed.

Lemma get_fallback_tables_shape_witness :
  get_fallback_tables (T "Ada berapa KOPERASI di Jawa?")
  = map T ["cooperatives"; "provinces"]%string.
Proof. apply get_fallback_tables_shape. vm_compute. reflexivity. Defined.

Lemma firstn_incl {A} (n : nat) (l : list A) : incl (firstn n l) l.
Proof.
  intros x Hx. rewrite <- (firstn_skipn n l). apply in_or_app. left. exact Hx.
Qed.

Lemma py_slice_upto_incl {A} (l : list A) n : incl (py_slice_upto l n) l.
Proof. unfold py_slice_upto. destruct (0 <=? n)%Z; apply firstn_incl. Qed.

Lemma firstn_NoDup {A} (n : nat) (l : list A) : NoDup l -> NoDup (firstn n l).
Proof.
  intro H. rewrite <- (firstn_skipn n l) in H. exact (NoDup_app_remove_r _ _ H).
Qed.

Lemma py_slice_upto_NoDup {A} (l : list A) n : NoDup l -> NoDup (py_slice_upto l n).
Proof. unfold py_slice_upto. destruct (0 <=? n)%Z; apply firstn_NoDup. Qed.

(** [search_relevant_tables]: after a completed run, at most [max_tables]
    names (for [max_tables >= 0]), all common table names, each once; after
    any other end of the run (another status or an exception), the fallback
    tables, which are never empty. *)
Theorem search_relevant_tables_shape (run : run_outcome) (question : str) (max_tables : Z) :
  let r := search_relevant_tables run question max_tables in
  match run with
  | RunCompleted _ =>
      ((0 <= max_tables)%Z -> length r <= Z.to_nat max_tables)
      /\ incl r common_tables /\ NoDup r
  | _ => r = get_fallback_tables question /\ r <> []
  end.
Proof.
  cbv zeta. destruct run as [resp|st|e]; cbn [search_relevant_tables].
  - destruct (extract_table_names_known resp) as [Hi Hn]. split; [|split].
    + intro H. unfold py_slice_upto. apply Z.leb_le in H. rewrite H, length_firstn. lia.
    + intros x Hx. apply Hi, (py_slice_upto_incl _ _ _ Hx).
    + apply py_slice_upto_NoDup, Hn.
  - split; [reflexivity|]. apply (proj1 (get_fallback_tables_shape question)).
  - split; [reflexivity|]. apply (proj1 (get_fallback_tables_shape question)).
Qed.

Lemma search_relevant_tables_shape_witness :
  ((0 <= 1)%Z -> length (search_relevant_tables (RunCompleted (T "cooperatives, provinces")) (T "q") 1)
                 <= Z.to_nat 1)
  /\ incl (search_relevant_tables (RunCompleted (T "cooperatives, provinces")) (T "q") 1) common_tables
  /\ NoDup (search_relevant_tables (RunCompleted (T "cooperatives, provinces")) (T "q") 1).
Proof. exact (search_relevant_tables_shape (RunCompleted (T "cooperatives, provinces")) (T "q") 1). Defined.

(** An empty search result widens the context: when a completed run names
    none of the common tables, or [max_tables] is 0, the search returns
    the empty list, and [build_schema_summary] on it builds the context of
    every table, exactly as with no argument. *)
Theorem empty_search_gives_full_schema (E : env) (response_content question : str) (max_tables : Z) :
  (max_tables = 0%Z
   \/ forall t, In t common_tables -> contains t (lower_str response_content) = false) ->
  search_relevant_tables (RunCompleted response_content) question max_tables = []
  /\ build_schema_summary E (Some (search_relevant_tables (RunCompleted response_content)
                                                         question max_tables))
     = build_schema_summary E None.
Proof.
  intro H.
  assert (He : search_relevant_tables (RunCompleted response_content) question max_tables = []).
  { cbn [search_relevant_tables]. destruct H as [->|H]; [reflexivity|].
    rewrite extract_table_names_eq. cbv zeta.
    assert (Hf : filter (fun table => contains table (lower_str response_content)) common_tables = []).
    { rewrite (filter_ext_in _ (fun _ => false)); [apply filter_false|exact H]. }
    rewrite Hf. unfold py_slice_upto. destruct (0 <=? max_tables)%Z; rewrite firstn_nil; reflexivity. }
  split; [exact He|]. rewrite He. reflexivity.
Qed.

Lemma empty_search_gives_full_schema_witness :
  search_relevant_tables (RunCompleted (T "Tidak ada tabel yang cocok.")) (T "q") 5 = []
  /\ build_schema_summary (demo_env [])
       (Some (search_relevant_tables (RunCompleted (T "Tidak ada tabel yang cocok.")) (T "q") 5))
     = build_schema_summary (demo_env []) None.
Proof.
  apply empty_search_gives_full_schema. right.
  intros t Ht. cbn in Ht. repeat destruct Ht as [<-|Ht]; try contradiction; vm_compute; reflexivity.
Defined.

(** ** [run_query_pipeline]: what reaches the database *)

Lemma msg_exec_failed_ne inv : msg_exec_failed <> msg_invalid_name inv.
Proof. unfold msg_exec_failed, msg_invalid_name. cbn. discriminate. Qed.

Lemma pipeline_success_inv E q text cols rows n sql :
  run_query_pipeline E q = Ok (PSuccess text cols rows n sql) ->
  validate_sql sql = true
  /\ (exists schema, fst (build_schema_summary E (Some (vector_tables E q))) = Ok schema
                     /\ fst (enforce_schema_strictly sql schema) = true)
  /\ exists rows0, execute_read_query (db_query E) sql (MAX_ROWS E) = Ok (cols, rows0)
       /\ summarize E q (firstn 5 (map serialize_row rows0)) = Ok text
       /\ rows = map (map snd) (map serialize_row rows0)
       /\ n = length rows0.
Proof.
  unfold run_query_pipeline.
  destruct (ask_llm_for_sql_full E q) as [v|e]; [|discriminate].
  destruct (json_strip v) as [raw0|e]; [|discriminate].
  destruct (_ || _); [discriminate|].
  destruct (fst (build_schema_summary E (Some (vector_tables E q)))) as [schema|e] eqn:Hb;
    [|discriminate].
  destruct (validate_sql (drop_semicolon raw0)) eqn:Hv; cbn [negb]; [|discriminate].
  destruct (enforce_schema_strictly (drop_semicolon raw0) schema) as [[|] inv] eqn:He;
    [|discriminate].
  destruct (execute_read_query _ _ _) as [[cols0 rows0]|e] eqn:Hx; [|discriminate].
  destruct (summarize E q _) as [summary|e] eqn:Hs; [|discriminate].
  intro H. inversion H; subst. split; [exact Hv|]. split.
  - exists schema. rewrite He. auto.
  - exists rows0. rewrite length_map. auto.
Qed.

Lemma pipeline_exec_failed_inv E q d sql :
  run_query_pipeline E q = Ok (PError msg_exec_failed d sql None) ->
  validate_sql sql = true
  /\ (exists schema, fst (build_schema_summary E (Some (vector_tables E q))) = Ok schema
                     /\ fst (enforce_schema_strictly sql schema) = true)
  /\ exists e, execute_read_query (db_query E) sql (MAX_ROWS E) = Raise e /\ d = Some (exn_str e).
Proof.
  unfold run_query_pipeline.
  destruct (ask_llm_for_sql_full E q) as [v|e]; [|discriminate].
  destruct (json_strip v) as [raw0|e]; [|discriminate].
  destruct (_ || _); [intro H; inversion H|].
  destruct (fst (build_schema_summary E (Some (vector_tables E q)))) as [schema|e] eqn:Hb;
    [|discriminate].
  destruct (validate_sql (drop_semicolon raw0)) eqn:Hv; cbn [negb].
  2: { intro H. inversion H. }
  destruct (enforce_schema_strictly (drop_semicolon raw0) schema) as [[|] inv] eqn:He.
  2: { intro H. exfalso. apply (msg_exec_failed_ne inv).
        apply (f_equal (fun r => match r with Ok (PError m _ _ _) => m | _ => [] end)) in H.
        symmetry; exact H. }
  destruct (execute_read_query _ _ _) as [[cols0 rows0]|e] eqn:Hx.
  - destruct (summarize E q _); discriminate.
  - intro H. inversion H; subst. split; [exact Hv|]. split; [|eauto].
    exists schema. rewrite He. auto.
Qed.


(** ** [dict(zip(columns, r))] *)

Lemma str_eqb_true a b : str_eqb a b = true <-> a = b.
Proof. unfold str_eqb. destruct (list_eq_dec ascii_dec a b); split; congruence. Qed.

Lemma dict_get_app {V} k (l1 l2 : row V) :
  dict_get k (l1 ++ l2) = match dict_get k l1 with Some v => Some v | None => dict_get k l2 end.
Proof.
  induction l1 as [|[k' v'] r IH]; cbn; [reflexivity|].
  destruct (str_eqb k k'); [reflexivity|exact IH].
Qed.

Lemma dict_insert_get {V} k (v : V) d k0 :
  dict_get k0 (dict_insert k v d) = if str_eqb k0 k then Some v else dict_get k0 d.
Proof.
  induction d as [|[k' v'] r IH]; cbn; [reflexivity|].
  destruct (str_eqb k k') eqn:Hkk'; cbn.
  - apply str_eqb_true in Hkk' as ->. destruct (str_eqb k0 k'); reflexivity.
  - rewrite IH. destruct (str_eqb k0 k') eqn:H1, (str_eqb k0 k) eqn:H2; try reflexivity.
    apply str_eqb_true in H1, H2. subst. rewrite str_eqb_refl in Hkk'. discriminate.
Qed.

Lemma dict_insert_keys {V} k (v : V) d :
  map fst (dict_insert k v d) = if mem k (map fst d) then map fst d else map fst d ++ [k].
Proof.
  induction d as [|[k' v'] r IH]; cbn; [reflexivity|].
  unfold mem in *. cbn. destruct (str_eqb k k') eqn:Hkk'; cbn; [reflexivity|].
  rewrite IH. destruct (existsb _ _); reflexivity.
Qed.

Lemma dict_fold_get {V} (pairs : list (str * V)) d k0 :
  dict_get k0 (fold_left (fun d kv => dict_insert (fst kv) (snd kv) d) pairs d)
  = match dict_get k0 (rev pairs) with Some v => Some v | None => dict_get k0 d end.
Proof.
  revert d. induction pairs as [|[k v] ps IH]; intro d; cbn; [reflexivity|].
  rewrite IH, dict_insert_get, dict_get_app. cbn.
  destruct (dict_get k0 (rev ps)); [reflexivity|]. destruct (str_eqb k0 k); reflexivity.
Qed.

Lemma dict_fold_keys {V} (pairs : list (str * V)) d :
  map fst (fold_left (fun d kv => dict_insert (fst kv) (snd kv) d) pairs d)
  = add_missing (map fst d) (map fst pairs).
Proof.
  revert d. induction pairs as [|[k v] ps IH]; intro d; cbn; [reflexivity|].
  rewrite IH, dict_insert_keys. unfold add_missing. cbn. reflexivity.
Qed.

Lemma dict_of_pairs_get {V} (pairs : list (str * V)) k :
  dict_get k (dict_of_pairs pairs) = dict_get k (rev pairs).
Proof.
  unfold dict_of_pairs. rewrite dict_fold_get. destruct (dict_get k (rev pairs)); reflexivity.
Qed.

Lemma dict_of_pairs_keys {V} (pairs : list (str * V)) :
  NoDup (map fst (dict_of_pairs pairs))
  /\ (forall k, In k (map fst (dict_of_pairs pairs)) <-> In k (map fst pairs)).
Proof.
  unfold dict_of_pairs. rewrite dict_fold_keys. cbn.
  destruct (add_missing_spec (map fst pairs) []) as (_ & H2 & H3 & H4).
  split; [apply H4; constructor|]. intro k. split; [|apply H2].
  intro Hk. destruct (H3 k Hk) as [[]|H]; exact H.
Qed.

Lemma NoDup_same_length (l l' : list str) :
  NoDup l -> NoDup l' -> (forall x, In x l <-> In x l') -> length l = length l'.
Proof.
  intros H1 H2 H. apply Nat.le_antisymm; apply NoDup_incl_length; auto; intros x Hx; apply H; auto.
Qed.

Lemma dict_of_pairs_length {V} (pairs : list (str * V)) :
  length (dict_of_pairs pairs) = length (nodup (list_eq_dec ascii_dec) (map fst pairs)).
Proof.
  destruct (dict_of_pairs_keys pairs) as [Hnd Hin]. rewrite <- (length_map fst).
  apply NoDup_same_length; [exact Hnd|apply NoDup_nodup|].
  intro x. rewrite nodup_In. apply Hin.
Qed.

Lemma combine_keys {A B} (l : list A) (l' : list B) :
  map fst (combine l l') = firstn (length l') l.
Proof.
  revert l'. induction l as [|a l IH]; intros [|b l']; cbn; try reflexivity.
  f_equal. apply IH.
Qed.

Lemma Forall2_map_self {A B} (P : B -> A -> Prop) (f : A -> B) (l : list A) :
  (forall x, In x l -> P (f x) x) -> Forall2 P (map f l) l.
Proof.
  induction l as [|x r IH]; intro H; constructor; [apply H; left; reflexivity|].
  apply IH. intros y Hy. apply H. right. exact Hy.
Qed.

Lemma serialize_row_keys r : map fst (serialize_row r) = map fst r.
Proof. unfold serialize_row. rewrite map_map. reflexivity. Qed.

(** [POST /chat] and [POST /chat/humanized]: when generating the statement
    fails (the schema build for the relevant tables, the completion service
    or the parsing of its answer raises), both routes answer status 500 with
    the text of that exception. *)
Theorem chat_routes_generation_failure E q e :
  ask_llm_for_sql_full E q = Raise e ->
  chat E q = HttpError 500 (exn_str e) /\ chat_humanized E q = HttpError 500 (exn_str e).
Proof.
  intro H. unfold chat, chat_humanized, run_query_pipeline. rewrite H. split; reflexivity.
Qed.

Lemma chat_routes_generation_failure_witness :
  chat (demo_env malformed_completion) (T "q")
    = HttpError 500 (exn_str (ValueError (invalid_json_msg ++ malformed_completion)))
  /\ chat_humanized (demo_env malformed_completion) (T "q")
    = HttpError 500 (exn_str (ValueError (invalid_json_msg ++ malformed_completion))).
Proof. apply chat_routes_generation_failure. vm_compute. reflexivity. Defined.






(** [run_query_pipeline]: on success, the payload rows and the summary both
    come from the rows [execute_read_query] returned for the carried
    statement, i.e. the fetched rows cut at [MAX_ROWS], each made a dict;
    [row_count] is the number of payload rows, which is
    [min(MAX_ROWS, fetched)] for a non-negative limit, and the summarizer is
    given the first five of these rows serialized. *)
Theorem run_query_pipeline_row_count E q text cols rows n sql :
  run_query_pipeline E q = Ok (PSuccess text cols rows n sql) ->
  exists fetched rows0,
    db_query E sql = Ok (cols, fetched)
    /\ execute_read_query (db_query E) sql (MAX_ROWS E) = Ok (cols, rows0)
    /\ rows0 = map (fun r => dict_of_pairs (combine cols r)) (py_slice_upto fetched (MAX_ROWS E))
    /\ rows = map (map snd) (map serialize_row rows0)
    /\ summarize E q (firstn 5 (map serialize_row rows0)) = Ok text
    /\ n = length rows
    /\ ((0 <= MAX_ROWS E)%Z -> n = Nat.min (Z.to_nat (MAX_ROWS E)) (length fetched)).
Proof.
  intro H. destruct (pipeline_success_inv _ _ _ _ _ _ _ H) as (_ & _ & rows0 & Hx & Hs & -> & ->).
  pose proof Hx as Hx'. unfold execute_read_query in Hx.
  destruct (db_query E sql) as [[cols' fetched]|e]; [|discriminate].
  inversion Hx; subst. exists fetched, (map (fun r => dict_of_pairs (combine cols r))
                                       (py_slice_upto fetched (MAX_ROWS E))).
  split; [reflexivity|]. split; [exact Hx'|]. split; [reflexivity|]. split; [reflexivity|].
  split; [exact Hs|]. rewrite !length_map. split; [reflexivity|].
  intro Hm. rewrite py_slice_upto_length. apply Z.leb_le in Hm. rewrite Hm. reflexivity.
Qed.

Lemma run_query_pipeline_row_count_witness :
  exists fetched rows0,
    db_query (demo_env count_query) (T "SELECT COUNT(*) FROM cooperatives") = Ok ([T "count"], fetched)
    /\ execute_read_query (db_query (demo_env count_query)) (T "SELECT COUNT(*) FROM cooperatives")
         (MAX_ROWS (demo_env count_query)) = Ok ([T "count"], rows0)
    /\ rows0 = map (fun r => dict_of_pairs (combine [T "count"] r))
                   (py_slice_upto fetched (MAX_ROWS (demo_env count_query)))
    /\ [[OStr (T "5")]] = map (map snd) (map serialize_row rows0)
    /\ summarize (demo_env count_query) (T "q") (firstn 5 (map serialize_row rows0))
       = Ok (T "Terdapat 5 koperasi.")
    /\ 1 = length [[OStr (T "5")]]
    /\ ((0 <= MAX_ROWS (demo_env count_query))%Z ->
        1 = Nat.min (Z.to_nat (MAX_ROWS (demo_env count_query))) (length fetched)).
Proof.
  apply run_query_pipeline_row_count. vm_compute. reflexivity.
Defined.

(** [run_query_pipeline]: each payload row [list(r.values())] has one
    value per distinct column name among the columns its fetched tuple
    fills: columns of the same name collapse into one entry. *)
Theorem run_query_pipeline_row_width E q text cols rows n sql :
  run_query_pipeline E q = Ok (PSuccess text cols rows n sql) ->
  exists fetched, db_query E sql = Ok (cols, fetched)
    /\ Forall2 (fun r t => length r = length (nodup (list_eq_dec ascii_dec) (firstn (length t) cols)))
               rows (py_slice_upto fetched (MAX_ROWS E)).
Proof.
  intro H. destruct (pipeline_success_inv _ _ _ _ _ _ _ H) as (_ & _ & rows0 & Hx & _ & -> & _).
  unfold execute_read_query in Hx.
  destruct (db_query E sql) as [[cols' fetched]|e]; [|discriminate].
  inversion Hx; subst. exists fetched. split; [reflexivity|].
  rewrite !map_map. apply Forall2_map_self. intros t _.
  rewrite length_map, <- (length_map fst), serialize_row_keys, length_map.
  rewrite dict_of_pairs_length, combine_keys. reflexivity.
Qed.

Lemma run_query_pipeline_row_width_witness :
  exists fetched, db_query dup_env (T "SELECT name FROM cooperatives")
                    = Ok ([T "name"; T "name"], fetched)
    /\ Forall2 (fun r t => length r = length (nodup (list_eq_dec ascii_dec)
                                                    (firstn (length t) [T "name"; T "name"])))
               [[OStr (T "B")]] (py_slice_upto fetched (MAX_ROWS dup_env)).
Proof.
  apply (run_query_pipeline_row_width dup_env (T "q") (T "Satu koperasi.") _ _ 1).
  vm_compute. reflexivity.
Defined.

(** [execute_read_query]: every returned row is [dict(zip(columns, r))] of
    a kept tuple: its keys are distinct and are the column names the tuple
    fills, and a name repeated among the columns gets the value of its
    last column. *)
Theorem execute_read_query_rows dbq sql N cols rows :
  execute_read_query dbq sql N = Ok (cols, rows) ->
  exists fetched, dbq sql = Ok (cols, fetched)
    /\ Forall2 (fun r t => NoDup (map fst r)
                           /\ (forall k, In k (map fst r) <-> In k (firstn (length t) cols))
                           /\ (forall k, dict_get k r = dict_get k (rev (combine cols t))))
               rows (py_slice_upto fetched N).
Proof.
  unfold execute_read_query. destruct (dbq sql) as [[cols' fetched]|e]; [|discriminate].
  intro H. inversion H; subst. exists fetched. split; [reflexivity|].
  apply Forall2_map_self. intros t _.
  destruct (dict_of_pairs_keys (combine cols t)) as [Hnd Hin].
  rewrite combine_keys in Hin. split; [exact Hnd|]. split; [exact Hin|].
  intro k. apply dict_of_pairs_get.
Qed.

Lemma execute_read_query_rows_witness :
  exists fetched, db_query dup_env (T "SELECT name FROM cooperatives")
                    = Ok ([T "name"; T "name"], fetched)
    /\ Forall2 (fun r t => NoDup (map fst r)
                           /\ (forall k, In k (map fst r) <-> In k (firstn (length t) [T "name"; T "name"]))
                           /\ (forall k, dict_get k r = dict_get k (rev (combine [T "name"; T "name"] t))))
               [[(T "name", DStr (T "B"))]] (py_slice_upto fetched 5000).
Proof.
  apply (execute_read_query_rows (db_query dup_env) _ 5000). vm_compute. reflexivity.
Defined.

(** ** [ask_llm_for_sql_with_retry] *)

Lemma attempt_step_inl gen schema attempt last_error sql :
  attempt_step gen schema attempt last_error = inl sql ->
  validate_sql sql = true /\ fst (enforce_schema_strictly sql schema) = true.
Proof.
  unfold attempt_step.
  destruct (gen attempt last_error) as [v|e]; [|discriminate].
  destruct (json_strip v) as [sql0|e]; [|discriminate].
  destruct (validate_sql (drop_semicolon sql0)) eqn:Hv; cbn [negb]; [|discriminate].
  destruct (enforce_schema_strictly (drop_semicolon sql0) schema) as [[|] inv] eqn:He;
    [|discriminate].
  intro H. inversion H; subst. rewrite He. auto.
Qed.

Lemma retry_go_spec gen schema attempt left last_error :
  (fst (retry_go gen schema attempt left last_error) = fallback_sql
   \/ exists i le, attempt_step gen schema i le = inl (fst (retry_go gen schema attempt left last_error)))
  /\ snd (retry_go gen schema attempt left last_error)
     = seq attempt (length (snd (retry_go gen schema attempt left last_error))).
Proof.
  revert attempt last_error. induction left as [|left IH]; intros attempt last_error; cbn.
  - auto.
  - destruct (attempt_step gen schema attempt last_error) as [sql|err] eqn:Ha; cbn.
    + split; [right; eauto|reflexivity].
    + destruct (IH (S attempt) (Some err)) as [H1 H2].
      destruct (retry_go gen schema (S attempt) left (Some err)) as [sql tried]. cbn in *.
      split; [exact H1|]. f_equal. exact H2.
Qed.

(** [ask_llm_for_sql_with_retry]: the statement it returns is either the
    fixed fallback statement or one that passed [validate_sql] and was
    accepted by [enforce_schema_strictly] against the full context
    ([build_schema_summary()] with no argument). *)
Theorem ask_llm_for_sql_with_retry_checked E q max_retries sql tried :
  ask_llm_for_sql_with_retry E q max_retries = (Ok sql, tried) ->
  sql = fallback_sql
  \/ (validate_sql sql = true
      /\ exists schema, fst (build_schema_summary E None) = Ok schema
                        /\ fst (enforce_schema_strictly sql schema) = true).
Proof.
  unfold ask_llm_for_sql_with_retry, retry_loop.
  destruct (fst (build_schema_summary E None)) as [schema|e]; [|discriminate].
  destruct (retry_go_spec (generate E q) schema 0 (Z.to_nat (max_retries + 1)) None) as [H1 _].
  destruct (retry_go _ _ _ _ _) as [sql' tried']. cbn in H1.
  intro H. inversion H; subst. destruct H1 as [H1|(i & le & H1)]; [left; exact H1|right].
  destruct (attempt_step_inl _ _ _ _ _ H1). eauto.
Qed.

Lemma ask_llm_for_sql_with_retry_checked_witness :
  T "SELECT COUNT(*) FROM cooperatives" = fallback_sql
  \/ (validate_sql (T "SELECT COUNT(*) FROM cooperatives") = true
      /\ exists schema, fst (build_schema_summary (demo_env count_query) None) = Ok schema
                        /\ fst (enforce_schema_strictly (T "SELECT COUNT(*) FROM cooperatives") schema)
                           = true).
Proof.
  apply (ask_llm_for_sql_with_retry_checked (demo_env count_query) (T "q") 2 _ [0]).
  vm_compute. reflexivity.
Defined.

(** [ask_llm_for_sql_with_retry]: the attempts made are [0, 1, ..., k-1]
    in order, with at most [max_retries + 1] of them (none for a negative
    [max_retries + 1], which returns the fallback statement). *)
Theorem ask_llm_for_sql_with_retry_attempts E q max_retries r tried :
  ask_llm_for_sql_with_retry E q max_retries = (r, tried) ->
  tried = seq 0 (length tried)
  /\ length tried <= Z.to_nat (max_retries + 1)
  /\ ((max_retries + 1 <= 0)%Z -> tried = [] /\ (r = Ok fallback_sql \/ exists e, r = Raise e)).
Proof.
  unfold ask_llm_for_sql_with_retry, retry_loop.
  destruct (fst (build_schema_summary E None)) as [schema|e].
  - destruct (retry_go_spec (generate E q) schema 0 (Z.to_nat (max_retries + 1)) None) as [_ H2].
    pose proof (retry_go_attempts (generate E q) schema 0 (Z.to_nat (max_retries + 1)) None) as H3.
    intro H. split; [|split].
    + destruct (retry_go _ _ _ _ _) as [sql' tried']. inversion H; subst. exact H2.
    + destruct (retry_go _ _ _ _ _) as [sql' tried']. inversion H; subst. exact H3.
    + intro Hn. replace (Z.to_nat (max_retries + 1)) with 0 in H by lia. cbn in H.
      inversion H; subst. auto.
  - intro H. inversion H; subst. cbn. split; [reflexivity|]. split; [lia|]. eauto.
Qed.

Lemma ask_llm_for_sql_with_retry_attempts_witness :
  [0; 1; 2] = seq 0 (length [0; 1; 2])
  /\ length [0; 1; 2] <= Z.to_nat (2 + 1)
  /\ ((2 + 1 <= 0)%Z -> [0; 1; 2] = [] /\ (Ok fallback_sql = Ok fallback_sql
                                          \/ exists e, @Ok str fallback_sql = Raise e)).
Proof.
  apply (ask_llm_for_sql_with_retry_attempts (demo_env malformed_completion) (T "q") 2).
  vm_compute. reflexivity.
Defined.

(** ** [build_schema_summary] and [_build_schema_from_db] *)

Section SchemaExtra.
Variable E : env.

Lemma map_result_raise {A B} (f : A -> result B) l x e :
  In x l -> f x = Raise e -> exists e', map_result f l = Raise e'.
Proof.
  induction l as [|y r IH]; intros Hx Hf; [destruct Hx|]. cbn.
  destruct Hx as [->|Hx]; [rewrite Hf; eauto|].
  destruct (f y); [|eauto]. destruct (IH Hx Hf) as [e' ->]. eauto.
Qed.

Lemma col_desc_raise c : cm_name c = None \/ cm_type c = None -> exists e, col_desc c = Raise e.
Proof.
  unfold col_desc. intros [H|H]; rewrite H; [eauto|]. destruct (cm_name c); eauto.
Qed.

Lemma kdmp_loop_raise tables todo t meta e :
  In t todo -> table_lookup tables t = Some meta -> map_result col_desc (tm_columns meta) = Raise e ->
  exists e' lg, kdmp_loop E tables todo = (Raise e', lg).
Proof.
  induction todo as [|t0 rest IH]; intros Ht Hl Hm; [destruct Ht|]. cbn.
  destruct (table_lookup tables t0) as [meta0|] eqn:Hl0.
  - destruct (map_result col_desc (tm_columns meta0)) as [cols|e0] eqn:Hm0; [|eauto].
    destruct Ht as [->|Ht]; [congruence|].
    destruct (IH Ht Hl Hm) as (e' & lg & Hr). rewrite Hr.
    destruct (samples_of E t0); cbn; eauto.
  - destruct Ht as [->|Ht]; [congruence|].
    destruct (IH Ht Hl Hm) as (e' & lg & Hr). rewrite Hr. eauto.
Qed.

(** [build_schema_summary]: one column entry without [name] or [type] in a
    table that is processed makes the whole kdmp-tables.json path raise, so
    the context comes from the live database ([_build_schema_from_db] with
    the same argument), after the two fallback messages. *)
Theorem build_schema_summary_malformed_kdmp relevant tables t meta c :
  kdmp E = Tables tables ->
  In t (or_default relevant (map fst tables)) ->
  table_lookup tables t = Some meta ->
  In c (tm_columns meta) -> cm_name c = None \/ cm_type c = None ->
  exists lg, build_schema_summary E relevant
    = (fst (build_schema_from_db E relevant),
       lg ++ [LoadFailed; UsingDb] ++ snd (build_schema_from_db E relevant)).
Proof.
  intros Hk Ht Hl Hc Hn. destruct (col_desc_raise c Hn) as [e He].
  destruct (map_result_raise col_desc _ _ _ Hc He) as [e' Hm].
  destruct (kdmp_loop_raise _ _ _ _ _ Ht Hl Hm) as (e'' & lg & Hr).
  unfold build_schema_summary. rewrite Hk, Hr.
  destruct (build_schema_from_db E relevant). eauto.
Qed.

Lemma samples_of_bound t smp :
  (0 <= SAMPLE_ROWS E)%Z -> samples_of E t = Ok smp -> length smp <= Z.to_nat (SAMPLE_ROWS E).
Proof.
  unfold samples_of. intro H0. destruct (db_samples E t (SAMPLE_ROWS E)) as [rs|e]; [|discriminate].
  intro H. inversion H; subst. rewrite length_map, py_slice_upto_length.
  apply Z.leb_le in H0. rewrite H0. lia.
Qed.

Lemma kdmp_loop_samples tables todo ds lg :
  kdmp_loop E tables todo = (Ok ds, lg) ->
  forall d, In d ds -> d_sample_rows d = [] \/ samples_of E (d_table d) = Ok (d_sample_rows d).
Proof.
  revert ds lg. induction todo as [|t rest IH]; intros ds lg H; cbn in H.
  - inversion H; subst. intros d [].
  - destruct (table_lookup tables t) as [meta|] eqn:Hl.
    + destruct (map_result col_desc (tm_columns meta)); [|discriminate].
      destruct (samples_of E t) as [smp|e] eqn:Hs;
        destruct (kdmp_loop E tables rest) as [[ds'|e'] lg'] eqn:Hr; inversion H; subst;
        intros d [<-|Hd]; cbn; eauto.
    + destruct (kdmp_loop E tables rest) as [r lg'] eqn:Hr. inversion H; subst. eauto.
Qed.

Lemma db_loop_samples todo ds lg :
  db_loop E todo = (ds, lg) ->
  forall d, In d ds -> samples_of E (d_table d) = Ok (d_sample_rows d).
Proof.
  revert ds lg. induction todo as [|t rest IH]; intros ds lg H; cbn in H.
  - inversion H; subst. intros d [].
  - destruct (db_loop E rest) as [ds' lg'] eqn:Hr.
    destruct (db_columns E t); [|inversion H; subst; eauto].
    destruct (samples_of E t) as [smp|e] eqn:Hs; inversion H; subst; [|eauto].
    intros d [<-|Hd]; [exact Hs|eauto].
Qed.

Lemma from_db_samples relevant ds lg :
  build_schema_from_db E relevant = (Ok ds, lg) ->
  forall d, In d ds -> samples_of E (d_table d) = Ok (d_sample_rows d).
Proof.
  unfold build_schema_from_db.
  destruct (db_tables E) as [all|e]; [|discriminate].
  destruct (db_connect E) as [u|e]; [|discriminate].
  destruct (db_loop E _) as [ds' lg'] eqn:H. intro Heq. inversion Heq; subst.
  exact (db_loop_samples _ _ _ H).
Qed.

(** [build_schema_summary]: for a non-negative [SAMPLE_ROWS], every table
    of the context carries at most [SAMPLE_ROWS] sample rows, on the
    kdmp-tables.json path and on the live-database path alike. *)
Theorem build_schema_summary_sample_bound relevant ds lg :
  (0 <= SAMPLE_ROWS E)%Z ->
  build_schema_summary E relevant = (Ok ds, lg) ->
  forall d, In d ds -> length (d_sample_rows d) <= Z.to_nat (SAMPLE_ROWS E).
Proof.
  intros H0 H d Hd. destruct (summary_cases E _ _ _ H) as [(tables & _ & Hl)|(lg0 & lg' & Hb & _)].
  - destruct (kdmp_loop_samples _ _ _ _ Hl d Hd) as [->|Hs]; [cbn; lia|].
    exact (samples_of_bound _ _ H0 Hs).
  - exact (samples_of_bound _ _ H0 (from_db_samples _ _ _ Hb d Hd)).
Qed.

Lemma kdmp_loop_sample_failure tables todo ds lg t meta e :
  kdmp_loop E tables todo = (Ok ds, lg) ->
  In t todo -> table_lookup tables t = Some meta -> samples_of E t = Raise e ->
  (exists d, In d ds /\ d_table d = t /\ d_sample_rows d = []) /\ In (WarnSamples t) lg.
Proof.
  revert ds lg. induction todo as [|t0 rest IH]; intros ds lg H Ht Hl Hs; [destruct Ht|].
  cbn in H. destruct (table_lookup tables t0) as [meta0|] eqn:Hl0.
  - destruct (map_result col_desc (tm_columns meta0)) as [cols|e0]; [|discriminate].
    destruct (samples_of E t0) as [smp|e0] eqn:Hs0;
      destruct (kdmp_loop E tables rest) as [[ds'|e'] lg'] eqn:Hr; inversion H; subst.
    + destruct Ht as [->|Ht]; [congruence|].
      destruct (IH _ _ eq_refl Ht Hl Hs) as [(d & Hd & Hdt & Hds) Hw].
      split; [exists d; split; [right|]; auto|]. exact Hw.
    + destruct Ht as [->|Ht].
      * split; [|left; reflexivity]. eexists. split; [left; reflexivity|]. auto.
      * destruct (IH _ _ eq_refl Ht Hl Hs) as [(d & Hd & Hdt & Hds) Hw].
        split; [exists d; split; [right|]; auto|]. right. exact Hw.
  - destruct (kdmp_loop E tables rest) as [r lg'] eqn:Hr. inversion H; subst.
    destruct Ht as [->|Ht]; [congruence|].
    destruct (IH _ _ eq_refl Ht Hl Hs) as [(d & Hd & Hdt & Hds) Hw]. split; [eauto|right; exact Hw].
Qed.

Lemma kdmp_loop_no_fallback tables todo r lg :
  kdmp_loop E tables todo = (r, lg) -> ~ In UsingDb lg.
Proof.
  revert r lg. induction todo as [|t0 rest IH]; intros r lg H; cbn in H.
  - inversion H; subst. intros [].
  - destruct (table_lookup tables t0) as [meta0|].
    + destruct (map_result col_desc (tm_columns meta0)) as [cols|e0]; [|inversion H; subst; intros []].
      destruct (samples_of E t0) as [smp|e0];
        destruct (kdmp_loop E tables rest) as [r' lg'] eqn:Hr; inversion H; subst.
      * exact (IH _ _ eq_refl).
      * intros [Hc|Hc]; [discriminate|exact (IH _ _ eq_refl Hc)].
    + destruct (kdmp_loop E tables rest) as [r' lg'] eqn:Hr. inversion H; subst.
      intros [Hc|Hc]; [discriminate|exact (IH _ _ eq_refl Hc)].
Qed.

(** [build_schema_summary] when [fetch_sample_rows] raises for a table:
    with a well-formed kdmp-tables.json, a requested table the file knows
    keeps its entry with no sample rows and a warning is printed.
    [_build_schema_from_db] leaves that table out of its context, and so
    does [build_schema_summary] whenever it falls back to it: when the file
    is absent, unreadable, or its loop raised (the fallback notice
    [UsingDb] is then in the log; the kdmp-tables.json loop never logs
    it). *)
Theorem build_schema_summary_sample_failure relevant t e :
  db_samples E t (SAMPLE_ROWS E) = Raise e ->
  (forall tables, kdmp E = Tables tables -> well_formed tables = true ->
     In t (or_default relevant (map fst tables)) -> is_some (table_lookup tables t) = true ->
     exists ds lg, build_schema_summary E relevant = (Ok ds, lg)
       /\ (exists d, In d ds /\ d_table d = t /\ d_sample_rows d = [])
       /\ In (WarnSamples t) lg)
  /\ (forall ds lg, build_schema_from_db E relevant = (Ok ds, lg) -> ~ In t (map d_table ds))
  /\ (forall ds lg, build_schema_summary E relevant = (Ok ds, lg) ->
        kdmp E = NoFile \/ kdmp E = Unreadable \/ In UsingDb lg ->
        ~ In t (map d_table ds)).
Proof.
  intro Hdb. assert (Hs : samples_of E t = Raise e) by (unfold samples_of; rewrite Hdb; reflexivity).
  assert (Hfb : forall ds lg, build_schema_from_db E relevant = (Ok ds, lg) -> ~ In t (map d_table ds)).
  { intros ds lg Hb Hin. apply in_map_iff in Hin as (d & Hdt & Hd).
    pose proof (from_db_samples _ _ _ Hb d Hd) as Hd'. congruence. }
  split; [|split; [exact Hfb|]].
  - intros tables Hk Hwf Ht Hl.
    destruct (kdmp_loop_wf E tables (or_default relevant (map fst tables)) Hwf) as (ds & lg & Hr & _).
    destruct (table_lookup tables t) as [meta|] eqn:Hl'; [|discriminate].
    exists ds, lg. split; [unfold build_schema_summary; rewrite Hk, Hr; reflexivity|].
    exact (kdmp_loop_sample_failure _ _ _ _ _ _ _ Hr Ht Hl' Hs).
  - intros ds lg H Hpath.
    destruct (summary_cases E _ _ _ H) as [(tables & Hk & Hl) | (lg0 & lg' & Hd & _ & _)].
    + exfalso. destruct Hpath as [Hp|[Hp|Hp]]; [congruence|congruence|].
      exact (kdmp_loop_no_fallback _ _ _ _ Hl Hp).
    + exact (Hfb _ _ Hd).
Qed.

End SchemaExtra.

Lemma build_schema_summary_malformed_kdmp_witness :
  exists lg, build_schema_summary (samples_env (Tables kdmp_no_type) (Ok [])) None
    = (fst (build_schema_from_db (samples_env (Tables kdmp_no_type) (Ok [])) None),
       lg ++ [LoadFailed; UsingDb]
          ++ snd (build_schema_from_db (samples_env (Tables kdmp_no_type) (Ok [])) None)).
Proof.
  apply (build_schema_summary_malformed_kdmp _ None kdmp_no_type (T "cooperatives")
           (snd (hd (T "cooperatives", {| tm_description := None; tm_columns := [] |}) kdmp_no_type))
           {| cm_name := Some (T "name"); cm_type := None; cm_description := None |}).
  - reflexivity.
  - left. reflexivity.
  - vm_compute. reflexivity.
  - left. reflexivity.
  - right. reflexivity.
Defined.

Lemma build_schema_summary_sample_bound_witness :
  Forall (fun d => length (d_sample_rows d)
                   <= Z.to_nat (SAMPLE_ROWS (samples_env (Tables kdmp_cooperatives) (Ok three_samples))))
         (match fst (build_schema_summary
                       (samples_env (Tables kdmp_cooperatives) (Ok three_samples)) None) with
          | Ok ds => ds | Raise _ => [] end).
Proof.
  apply Forall_forall.
  apply (build_schema_summary_sample_bound _ None _
           (snd (build_schema_summary (samples_env (Tables kdmp_cooperatives) (Ok three_samples)) None))).
  - vm_compute. discriminate.
  - vm_compute. reflexivity.
Defined.

Lemma build_schema_summary_sample_failure_witness :
  (exists ds lg, build_schema_summary
                   (samples_env (Tables kdmp_cooperatives) (Raise (DbError (T "timeout")))) None
                 = (Ok ds, lg)
     /\ (exists d, In d ds /\ d_table d = T "cooperatives" /\ d_sample_rows d = [])
     /\ In (WarnSamples (T "cooperatives")) lg)
  /\ ~ In (T "cooperatives")
        (map d_table (match fst (build_schema_summary
                                   (samples_env (Tables kdmp_no_type) (Raise (DbError (T "timeout"))))
                                   None) with
                      | Ok ds => ds | Raise _ => [] end)).
Proof.
  split.
  - apply (proj1 (build_schema_summary_sample_failure
                    (samples_env (Tables kdmp_cooperatives) (Raise (DbError (T "timeout"))))
                    None (T "cooperatives") (DbError (T "timeout")) eq_refl) kdmp_cooperatives);
      vm_compute; first [reflexivity | left; reflexivity].
  - apply (proj2 (proj2 (build_schema_summary_sample_failure
                    (samples_env (Tables kdmp_no_type) (Raise (DbError (T "timeout"))))
                    None (T "cooperatives") (DbError (T "timeout")) eq_refl))
             _ (snd (build_schema_summary
                       (samples_env (Tables kdmp_no_type) (Raise (DbError (T "timeout")))) None))).
    + vm_compute. reflexivity.
    + right; right. vm_compute. right; left. reflexivity.
Defined.

(** ** [enforce_schema_strictly] *)

Lemma check_quoted_none schema ids :
  check_quoted schema ids = None <-> forall id, In id ids -> exact_column schema id = true.
Proof.
  induction ids as [|id r IH]; cbn; [split; [intros _ _ []|reflexivity]|].
  destruct (exact_column schema id) eqn:He.
  - rewrite IH. split; [intros H x [<-|Hx]; auto|intros H x Hx; apply H; auto].
  - split; [discriminate|]. intro H. rewrite (H id (or_introl eq_refl)) in He. discriminate.
Qed.

Lemma check_unquoted_cons aliases vt vc id r :
  check_unquoted aliases vt vc (id :: r) =
  if mem (lower_str id) sql_keywords || mem (lower_str id) sql_functions
     || mem (lower_str id) aliases || mem (lower_str id) vt || mem (lower_str id) vc
  then check_unquoted aliases vt vc r else Some id.
Proof.
  cbn [check_unquoted]. destruct (mem (lower_str id) sql_keywords), (mem (lower_str id) sql_functions),
    (mem (lower_str id) aliases), (mem (lower_str id) vt), (mem (lower_str id) vc); reflexivity.
Qed.

Lemma check_unquoted_none aliases vt vc ids :
  check_unquoted aliases vt vc ids = None <->
  forall id, In id ids ->
    mem (lower_str id) sql_keywords || mem (lower_str id) sql_functions
    || mem (lower_str id) aliases || mem (lower_str id) vt || mem (lower_str id) vc = true.
Proof.
  induction ids as [|id r IH]; [cbn; split; [intros _ _ []|reflexivity]|].
  rewrite check_unquoted_cons.
  destruct (mem (lower_str id) sql_keywords || mem (lower_str id) sql_functions
            || mem (lower_str id) aliases || mem (lower_str id) vt || mem (lower_str id) vc) eqn:Hok.
  - rewrite IH. split; [intros H x [<-|Hx]; auto|intros H x Hx; apply H; right; exact Hx].
  - split; [discriminate|]. intro H. rewrite (H id (or_introl eq_refl)) in Hok. discriminate.
Qed.

Lemma check_tables_none vt ts :
  check_tables vt ts = None <-> forall t, In t ts -> mem (lower_str t) vt = true.
Proof.
  induction ts as [|t r IH]; cbn; [split; [intros _ _ []|reflexivity]|].
  destruct (mem (lower_str t) vt) eqn:He.
  - rewrite IH. split; [intros H x [<-|Hx]; auto|intros H x Hx; apply H; auto].
  - split; [discriminate|]. intro H. rewrite (H t (or_introl eq_refl)) in He. discriminate.
Qed.

(** [enforce_schema_strictly] accepts a statement exactly when every
    double-quoted identifier is a column name of the context in exact case,
    every bare identifier left after removing quoted spans and string
    literals is, lower-cased, a listed keyword or function, an alias of a
    context table, a context table or a column name, and every identifier
    after FROM or JOIN is a context table (case-insensitively). *)
Theorem enforce_schema_strictly_accepts sql schema :
  fst (enforce_schema_strictly sql schema) = true <->
  (forall id, In id (quoted_identifiers sql) -> exact_column schema id = true)
  /\ (forall id, In id (potential_identifiers (strip_quoted (strip_literals sql))) ->
        mem (lower_str id) sql_keywords || mem (lower_str id) sql_functions
        || mem (lower_str id) (extract_table_aliases sql (valid_tables schema))
        || mem (lower_str id) (valid_tables schema)
        || mem (lower_str id) (valid_columns schema) = true)
  /\ (forall t, In t (findall (m_kw_table (T "FROM")) sql ++ findall (m_kw_table (T "JOIN")) sql) ->
        mem (lower_str t) (valid_tables schema) = true).
Proof.
  rewrite <- check_quoted_none, <- check_unquoted_none, <- check_tables_none.
  unfold enforce_schema_strictly.
  destruct (check_quoted schema (quoted_identifiers sql)); cbn;
    [split; [discriminate|intros [H _]; discriminate]|].
  destruct (check_unquoted _ _ _ _); cbn;
    [split; [discriminate|intros (_ & H & _); discriminate]|].
  destruct (check_tables _ _); cbn;
    [split; [discriminate|intros (_ & _ & H); discriminate]|].
  tauto.
Qed.

(** ** The brace search of [ask_llm_for_sql] *)

Lemma upto_last_none x s : upto_last x s = None <-> ~ In x s.
Proof.
  induction s as [|c r IH]; cbn; [tauto|].
  destruct (upto_last x r) as [p|].
  - split; [discriminate|]. intro H. exfalso.
    assert (Hr : ~ In x r) by (intro; apply H; right; assumption).
    apply IH in Hr. discriminate.
  - destruct (Ascii.eqb c x) eqn:Hc.
    + apply Ascii.eqb_eq in Hc. split; [discriminate|]. intro H. exfalso. apply H. left. exact Hc.
    + apply Ascii.eqb_neq in Hc. split; [|reflexivity]. intros _ [Hx|Hx]; [congruence|].
      apply (proj1 IH eq_refl Hx).
Qed.

Lemma upto_last_some x s p :
  upto_last x s = Some p -> exists m q, p = m ++ [x] /\ s = m ++ x :: q /\ ~ In x q.
Proof.
  revert p. induction s as [|c r IH]; intro p; cbn; [discriminate|].
  destruct (upto_last x r) as [p'|] eqn:Hr.
  - intro H. inversion H; subst. destruct (IH p' eq_refl) as (m & q & -> & -> & Hq).
    exists (c :: m), q. auto.
  - destruct (Ascii.eqb c x) eqn:Hc; [|discriminate]. apply Ascii.eqb_eq in Hc. subst.
    intro H. inversion H; subst. exists [], r. split; [reflexivity|]. split; [reflexivity|].
    apply upto_last_none, Hr.
Qed.

Lemma upto_last_app x m q : ~ In x q -> upto_last x (m ++ x :: q) = Some (m ++ [x]).
Proof.
  intro Hq. induction m as [|c m IH]; cbn.
  - apply upto_last_none in Hq. rewrite Hq, Ascii.eqb_refl. reflexivity.
  - rewrite IH. reflexivity.
Qed.

(** The fallback search [re.search(r"\{.*\}", text, re.DOTALL)] of
    [ask_llm_for_sql] and [ask_llm_for_sql_with_feedback]: it finds a match
    exactly when an opening brace is followed somewhere by a closing one,
    and the match runs from the first opening brace of the text to the last
    closing brace of the text. *)
Theorem brace_span_spec s :
  (forall sub, brace_span s = Some sub <->
     exists p m q, s = p ++ "{"%char :: m ++ "}"%char :: q
                   /\ ~ In "{"%char p /\ ~ In "}"%char q /\ sub = "{"%char :: m ++ ["}"%char])
  /\ (brace_span s = None <-> forall p m q, s <> p ++ "{"%char :: m ++ "}"%char :: q).
Proof.
  assert (Hsome : forall sub, brace_span s = Some sub <->
     exists p m q, s = p ++ "{"%char :: m ++ "}"%char :: q
                   /\ ~ In "{"%char p /\ ~ In "}"%char q /\ sub = "{"%char :: m ++ ["}"%char]).
  { intro sub. split.
    - revert sub. induction s as [|c r IH]; intro sub; cbn; [discriminate|].
      destruct (Ascii.eqb c "{"%char) eqn:Hc.
      + apply Ascii.eqb_eq in Hc. subst.
        destruct (upto_last "}"%char r) as [p'|] eqn:Hu; cbn; [|discriminate].
        intro H. inversion H; subst. destruct (upto_last_some _ _ _ Hu) as (m & q & -> & -> & Hq).
        exists [], m, q. cbn. auto.
      + apply Ascii.eqb_neq in Hc. intro H. destruct (IH sub H) as (p & m & q & -> & Hp & Hq & ->).
        exists (c :: p), m, q. split; [reflexivity|]. split; [|auto].
        intros [Hx|Hx]; [congruence|contradiction].
    - intros (p & m & q & -> & Hp & Hq & ->). induction p as [|c p IH]; cbn.
      + rewrite upto_last_app by exact Hq. reflexivity.
      + destruct (Ascii.eqb c "{"%char) eqn:Hc.
        * apply Ascii.eqb_eq in Hc. subst. exfalso. apply Hp. left. reflexivity.
        * apply IH. intro Hx. apply Hp. right. exact Hx. }
  split; [exact Hsome|]. split.
  - intros H p m q Hs. subst s. clear Hsome. revert H. induction p as [|c p IH]; cbn.
    + destruct (upto_last "}"%char (m ++ "}"%char :: q)) eqn:Hu; cbn; [discriminate|].
      apply upto_last_none in Hu. exfalso. apply Hu. apply in_or_app. right. left. reflexivity.
    + destruct (Ascii.eqb c "{"%char); [|exact IH].
      destruct (upto_last "}"%char _) eqn:Hu; cbn; [discriminate|].
      apply upto_last_none in Hu. exfalso. apply Hu. apply in_or_app. right. right.
      apply in_or_app. right. left. reflexivity.
  - intro H. destruct (brace_span s) as [sub|] eqn:Hb; [|reflexivity].
    destruct (proj1 (Hsome sub) eq_refl) as (p & m & q & Hs & _). exfalso. exact (H p m q Hs).
Qed.

(** ** The context on each path *)

Section SchemaPaths.
Variable E : env.

Lemma kdmp_loop_entry tables todo ds lg t meta :
  kdmp_loop E tables todo = (Ok ds, lg) ->
  In t todo -> table_lookup tables t = Some meta ->
  exists d, In d ds /\ d_table d = t /\ map_result col_desc (tm_columns meta) = Ok (d_columns d).
Proof.
  revert ds lg. induction todo as [|t0 rest IH]; intros ds lg H Ht Hl; [destruct Ht|].
  cbn in H. destruct (table_lookup tables t0) as [meta0|] eqn:Hl0.
  - destruct (map_result col_desc (tm_columns meta0)) as [cols|e0] eqn:Hm; [|discriminate].
    assert (Hs : exists smp lg0, (match samples_of E t0 with
                                  | Ok smp => (smp, []) | Raise _ => ([], [WarnSamples t0]) end)
                                 = (smp, lg0)) by (destruct (samples_of E t0); eauto).
    destruct Hs as (smp & lg0 & Hs). rewrite Hs in H.
    destruct (kdmp_loop E tables rest) as [[ds'|e'] lg'] eqn:Hr; inversion H; subst.
    destruct Ht as [->|Ht].
    + rewrite Hl in Hl0. inversion Hl0; subst. eexists. split; [left; reflexivity|]. auto.
    + destruct (IH _ _ eq_refl Ht Hl) as (d & Hd & Hdt & Hdc). exists d. split; [right|]; auto.
  - destruct (kdmp_loop E tables rest) as [r lg'] eqn:Hr. inversion H; subst.
    destruct Ht as [->|Ht]; [congruence|]. exact (IH _ _ eq_refl Ht Hl).
Qed.

Lemma kdmp_loop_columns tables todo ds lg :
  kdmp_loop E tables todo = (Ok ds, lg) ->
  forall d, In d ds -> exists meta, table_lookup tables (d_table d) = Some meta
                                    /\ map_result col_desc (tm_columns meta) = Ok (d_columns d).
Proof.
  revert ds lg. induction todo as [|t rest IH]; intros ds lg H; cbn in H.
  - inversion H; subst. intros d [].
  - destruct (table_lookup tables t) as [meta|] eqn:Hl.
    + destruct (map_result col_desc (tm_columns meta)) eqn:Hm; [|discriminate].
      destruct (samples_of E t);
        destruct (kdmp_loop E tables rest) as [[ds'|e'] lg'] eqn:Hr; inversion H; subst;
        intros d [<-|Hd]; cbn; eauto.
    + destruct (kdmp_loop E tables rest) as [r lg'] eqn:Hr. inversion H; subst. eauto.
Qed.

(** [build_schema_summary] with a well-formed kdmp-tables.json never
    raises and never falls back to the database: the context has one entry
    per processed name the file knows, in the order of the request
    (a name requested twice appears twice), and the columns of each entry
    are the formatted column entries of that table in the file. *)
Theorem build_schema_summary_kdmp_context relevant tables :
  kdmp E = Tables tables -> well_formed tables = true ->
  exists ds lg, build_schema_summary E relevant = (Ok ds, lg)
    /\ map d_table ds = filter (fun t => is_some (table_lookup tables t))
                               (or_default relevant (map fst tables))
    /\ (forall d, In d ds -> exists meta, table_lookup tables (d_table d) = Some meta
                                          /\ map_result col_desc (tm_columns meta) = Ok (d_columns d)).
Proof.
  intros Hk Hwf.
  destruct (kdmp_loop_wf E tables (or_default relevant (map fst tables)) Hwf) as (ds & lg & Hr & Hm).
  exists ds, lg. split; [unfold build_schema_summary; rewrite Hk, Hr; reflexivity|].
  split; [exact Hm|]. exact (kdmp_loop_columns _ _ _ _ Hr).
Qed.

Lemma db_loop_all_ok todo :
  (forall t, In t todo -> (exists cols, db_columns E t = Ok cols)
                          /\ exists smp, samples_of E t = Ok smp) ->
  map d_table (fst (db_loop E todo)) = todo.
Proof.
  induction todo as [|t rest IH]; intro H; cbn; [reflexivity|].
  destruct (db_loop E rest) as [ds lg] eqn:Hr. cbn in IH.
  destruct (H t (or_introl eq_refl)) as [(cols & Hc) (smp & Hs)]. rewrite Hc, Hs. cbn.
  f_equal. apply IH. intros t' Ht'. apply H. right. exact Ht'.
Qed.

(** [_build_schema_from_db], reached when there is no kdmp-tables.json:
    when the database lists its tables and every listed table can be
    described and sampled, the context has one entry per requested name
    that the database lists, in the order of the request (all listed
    tables when no non-empty list is given). *)
Theorem build_schema_summary_db_context relevant all :
  kdmp E = NoFile -> db_tables E = Ok all -> db_connect E = Ok tt ->
  (forall t, In t all -> (exists cols, db_columns E t = Ok cols)
                         /\ exists smp, db_samples E t (SAMPLE_ROWS E) = Ok smp) ->
  exists ds, fst (build_schema_summary E relevant) = Ok ds
    /\ map d_table ds = filter (fun t => mem t all) (or_default relevant all).
Proof.
  intros Hk Ht Hc Hall. unfold build_schema_summary, build_schema_from_db.
  rewrite Hk, Ht, Hc.
  destruct (db_loop E (filter (fun t => mem t all) (or_default relevant all))) as [ds lg] eqn:Hl.
  exists ds. split; [reflexivity|].
  pose proof (db_loop_all_ok (filter (fun t => mem t all) (or_default relevant all))) as Hd.
  rewrite Hl in Hd. apply Hd. intros t Hin. apply filter_In in Hin as [_ Hm].
  apply mem_true in Hm. destruct (Hall t Hm) as [Hcol (smp & Hs)]. split; [exact Hcol|].
  unfold samples_of. rewrite Hs. eauto.
Qed.

End SchemaPaths.

Lemma map_result_in {A B} (f : A -> result B) l ys x :
  map_result f l = Ok ys -> In x l -> exists y, f x = Ok y /\ In y ys.
Proof.
  revert ys. induction l as [|a r IH]; intros ys H Hx; [destruct Hx|]. cbn in H.
  destruct (f a) as [y|e] eqn:Hf; [|discriminate].
  destruct (map_result f r) as [ys'|e] eqn:Hr; [|discriminate]. inversion H; subst.
  destruct Hx as [Hax|Hxr].
  - subst a. exists y. split; [exact Hf|left; reflexivity].
  - destruct (IH ys' eq_refl Hxr) as (y' & Hy' & Hin). exists y'. split; [exact Hy'|right; exact Hin].
Qed.

Lemma take_until_app x n r : ~ In x n -> take_until x (n ++ x :: r) = n.
Proof.
  intro H. induction n as [|c n IH]; cbn; [rewrite Ascii.eqb_refl; reflexivity|].
  destruct (Ascii.eqb c x) eqn:Hc.
  - apply Ascii.eqb_eq in Hc. subst. exfalso. apply H. left. reflexivity.
  - rewrite IH; [reflexivity|]. intro Hx. apply H. right. exact Hx.
Qed.

Lemma take_until_all x n : ~ In x n -> take_until x n = n.
Proof.
  intro H. induction n as [|c n IH]; cbn; [reflexivity|].
  destruct (Ascii.eqb c x) eqn:Hc.
  - apply Ascii.eqb_eq in Hc. subst. exfalso. apply H. left. reflexivity.
  - rewrite IH; [reflexivity|]. intro Hx. apply H. right. exact Hx.
Qed.

(** From kdmp-tables.json to [enforce_schema_strictly]: the [name] of a
    column entry of a processed table, when it holds no space and no
    parenthesis, is a column name of the built context in exact case (so a
    double-quoted use of it passes the quoted check) and in lower case (so
    a bare use passes the identifier check). *)
Theorem kdmp_column_usable E relevant tables t meta c n :
  kdmp E = Tables tables -> well_formed tables = true ->
  In t (or_default relevant (map fst tables)) -> table_lookup tables t = Some meta ->
  In c (tm_columns meta) -> cm_name c = Some n ->
  ~ In " "%char n -> ~ In "("%char n ->
  exists ds lg, build_schema_summary E relevant = (Ok ds, lg)
    /\ exact_column ds n = true /\ mem (lower_str n) (valid_columns ds) = true.
Proof.
  intros Hk Hwf Ht Hl Hc Hn Hsp Hpar.
  destruct (kdmp_loop_wf E tables (or_default relevant (map fst tables)) Hwf) as (ds & lg & Hr & _).
  exists ds, lg. split; [unfold build_schema_summary; rewrite Hk, Hr; reflexivity|].
  destruct (kdmp_loop_entry E _ _ _ _ _ _ Hr Ht Hl) as (d & Hd & _ & Hm).
  destruct (map_result_in _ _ _ _ Hm Hc) as (y & Hy & Hyin).
  assert (Hcn : col_name y = n).
  { unfold col_desc in Hy. rewrite Hn in Hy. destruct (cm_type c) as [ty|]; [|discriminate].
    inversion Hy; subst. unfold col_name. cbn [T list_ascii_of_string app].
    rewrite take_until_app by exact Hsp. apply take_until_all, Hpar. }
  split.
  - unfold exact_column. apply existsb_exists. exists d. split; [exact Hd|].
    apply existsb_exists. exists y. split; [exact Hyin|]. rewrite Hcn. apply str_eqb_refl.
  - apply mem_In. unfold valid_columns. apply in_flat_map. exists d. split; [exact Hd|].
    apply in_map_iff. exists y. rewrite Hcn. auto.
Qed.

Lemma build_schema_summary_kdmp_context_witness :
  exists ds lg, build_schema_summary (demo_env [])
                  (Some [T "cooperatives"; T "nope"; T "cooperatives"]) = (Ok ds, lg)
    /\ map d_table ds = filter (fun t => is_some (table_lookup kdmp_cooperatives t))
                               (or_default (Some [T "cooperatives"; T "nope"; T "cooperatives"])
                                           (map fst kdmp_cooperatives))
    /\ (forall d, In d ds -> exists meta, table_lookup kdmp_cooperatives (d_table d) = Some meta
                                          /\ map_result col_desc (tm_columns meta) = Ok (d_columns d)).
Proof.
  apply (build_schema_summary_kdmp_context (demo_env [])); reflexivity.
Defined.

Lemma build_schema_summary_db_context_witness :
  exists ds, fst (build_schema_summary (db_env true) (Some [T "cooperatives"; T "nope"])) = Ok ds
    /\ map d_table ds = filter (fun t => mem t [T "cooperatives"])
                               (or_default (Some [T "cooperatives"; T "nope"]) [T "cooperatives"]).
Proof.
  apply (build_schema_summary_db_context (db_env true)); try reflexivity.
  intros t [<-|[]]. split; eexists; reflexivity.
Defined.

Lemma kdmp_column_usable_witness :
  exists ds lg, build_schema_summary (demo_env []) None = (Ok ds, lg)
    /\ exact_column ds (T "villageId") = true
    /\ mem (lower_str (T "villageId")) (valid_columns ds) = true.
Proof.
  apply (kdmp_column_usable (demo_env []) None kdmp_cooperatives (T "cooperatives")
           (snd (hd (T "", {| tm_description := None; tm_columns := [] |}) kdmp_cooperatives))
           {| cm_name := Some (T "villageId"); cm_type := Some (T "bigint");
              cm_description := Some (T "desa") |}).
  - reflexivity.
  - reflexivity.
  - left. reflexivity.
  - reflexivity.
  - right. left. reflexivity.
  - reflexivity.
  - cbn. intro H. repeat (destruct H as [H|H]; [discriminate|]). exact H.
  - cbn. intro H. repeat (destruct H as [H|H]; [discriminate|]). exact H.
Defined.
